(** * PlaneSweepStereo: projection, corner unprojection and NCC kernels

    A shallow embedding of [student.py] in exact real arithmetic.

    numpy arrays are modelled as a shape together with an accessor from
    multi-indices to real numbers; the accessor is only meaningful inside
    the shape.  Python exceptions are modelled by the [result] type.
    IEEE-754 rounding is outside the model: every floating point operation
    is read as the real operation it approximates. *)

From Stdlib Require Import Reals Lra Lia ZArith List Bool Arith.
Import ListNotations.

Open Scope R_scope.

(** ** Exceptions *)

Inductive exn : Type :=
| ValueError          (* shape mismatch in reshape or in a slice assignment *)
| LinAlgError         (* np.linalg.inv on a singular matrix *)
| ZeroDivisionError.  (* integer floor division by zero *)

Inductive result (A : Type) : Type :=
| Ok (a : A)
| Raise (e : exn).

Arguments Ok {A} a.
Arguments Raise {A} e.

Definition bind {A B : Type} (m : result A) (f : A -> result B) : result B :=
  match m with
  | Ok a => f a
  | Raise e => Raise e
  end.

Notation "x <- m ;; k" := (bind m (fun x => k))
  (at level 61, m at next level, right associativity).

(** ** numpy primitives *)

Module Np.

(** [sum_n n f] is f 0 + ... + f (n-1). *)
Fixpoint sum_n (n : nat) (f : nat -> R) : R :=
  match n with
  | O => 0
  | S m => sum_n m f + f m
  end.

Record array2 : Type := mk2 {
  a2_d0 : nat; a2_d1 : nat;
  get2 : nat -> nat -> R }.

Record array3 : Type := mk3 {
  d0 : nat; d1 : nat; d2 : nat;
  get3 : nat -> nat -> nat -> R }.

Record array4 : Type := mk4 {
  a4_d0 : nat; a4_d1 : nat; a4_d2 : nat; a4_d3 : nat;
  get4 : nat -> nat -> nat -> nat -> R }.

Record array5 : Type := mk5 {
  a5_d0 : nat; a5_d1 : nat; a5_d2 : nat; a5_d3 : nat; a5_d4 : nat;
  get5 : nat -> nat -> nat -> nat -> nat -> R }.

Definition size3 (a : array3) : nat := (d0 a * d1 a * d2 a)%nat.
Definition size4 (a : array4) : nat :=
  (a4_d0 a * a4_d1 a * a4_d2 a * a4_d3 a)%nat.
Definition size5 (a : array5) : nat :=
  (a5_d0 a * a5_d1 a * a5_d2 a * a5_d3 a * a5_d4 a)%nat.

(** Row-major (C order) position of an element, and element at a position. *)
Definition flat3 (a : array3) (p : nat) : R :=
  get3 a (p / (d1 a * d2 a)) ((p / d2 a) mod d1 a) (p mod d2 a).

Definition ravel5 (s1 s2 s3 s4 : nat) (i0 i1 i2 i3 i4 : nat) : nat :=
  ((((i0 * s1 + i1) * s2 + i2) * s3 + i3) * s4 + i4)%nat.

(** [a.reshape((s0, s1, s2, s3, s4))] of a 3-dimensional array. *)
Definition reshape3_5 (a : array3) (s0 s1 s2 s3 s4 : nat) : result array5 :=
  if (size3 a =? s0 * s1 * s2 * s3 * s4)%nat
  then Ok (mk5 s0 s1 s2 s3 s4
             (fun i0 i1 i2 i3 i4 => flat3 a (ravel5 s1 s2 s3 s4 i0 i1 i2 i3 i4)))
  else Raise ValueError.

(** Python's [a // b] on non-negative integers. *)
Definition floordiv (a b : nat) : result nat :=
  if (b =? 0)%nat then Raise ZeroDivisionError else Ok (a / b)%nat.

(** Element-wise product and square of equally shaped 5-dimensional arrays. *)
Definition mul5 (a b : array5) : array5 :=
  mk5 (a5_d0 a) (a5_d1 a) (a5_d2 a) (a5_d3 a) (a5_d4 a)
      (fun i0 i1 i2 i3 i4 => get5 a i0 i1 i2 i3 i4 * get5 b i0 i1 i2 i3 i4).

Definition square5 (a : array5) : array5 :=
  mk5 (a5_d0 a) (a5_d1 a) (a5_d2 a) (a5_d3 a) (a5_d4 a)
      (fun i0 i1 i2 i3 i4 => get5 a i0 i1 i2 i3 i4 ^ 2).

(** [np.sum(a, axis=(2, 3, 4))]. *)
Definition sum_axes234 (a : array5) : array2 :=
  mk2 (a5_d0 a) (a5_d1 a)
      (fun i0 i1 =>
         sum_n (a5_d2 a) (fun i2 =>
         sum_n (a5_d3 a) (fun i3 =>
         sum_n (a5_d4 a) (fun i4 => get5 a i0 i1 i2 i3 i4)))).

Definition mul2 (a b : array2) : array2 :=
  mk2 (a2_d0 a) (a2_d1 a) (fun i j => get2 a i j * get2 b i j).

Definition div2 (a b : array2) : array2 :=
  mk2 (a2_d0 a) (a2_d1 a) (fun i j => get2 a i j / get2 b i j).

Definition sqrt2 (a : array2) : array2 :=
  mk2 (a2_d0 a) (a2_d1 a) (fun i j => sqrt (get2 a i j)).

Definition Reqb (x y : R) : bool := if Req_dec_T x y then true else false.
Definition Rgeb (x y : R) : bool := if Rge_dec x y then true else false.

(** [a[a == x] = v]. *)
Definition assign_where_eq2 (a : array2) (x v : R) : array2 :=
  mk2 (a2_d0 a) (a2_d1 a)
      (fun i j => if Reqb (get2 a i j) x then v else get2 a i j).

End Np.

Import Np.

(** ** The correlation kernel *)

(** [compute_ncc_impl] up to its last statement: the two arrays it divides,
    [numerator] and [denominator], the latter after its zeros have been
    replaced by 1. *)
Definition ncc_operands (image1 image2 : array3) : result (array2 * array2) :=
  let h := d0 image1 in
  let w := d1 image1 in
  let c := d2 image1 in
  q <- floordiv (d2 image1) c ;;
  let ncc_size := Nat.sqrt q in
  im1 <- reshape3_5 image1 h w c ncc_size ncc_size ;;
  im2 <- reshape3_5 image2 h w c ncc_size ncc_size ;;
  let numerator := sum_axes234 (mul5 im1 im2) in
  let denominator :=
    sqrt2 (mul2 (sum_axes234 (square5 im1)) (sum_axes234 (square5 im2))) in
  let denominator := assign_where_eq2 denominator 0 1 in
  Ok (numerator, denominator).

Definition compute_ncc_impl (image1 image2 : array3) : result array2 :=
  ops <- ncc_operands image1 image2 ;;
  let ncc := div2 (fst ops) (snd ops) in
  Ok ncc.

(** Per-pixel quantities the kernel is specified by. *)
Definition dot_at (f1 f2 : array3) (r s : nat) : R :=
  sum_n (d2 f1) (fun q => get3 f1 r s q * get3 f2 r s q).

Definition sqnorm_at (f : array3) (r s : nat) : R :=
  sum_n (d2 f) (fun q => get3 f r s q ^ 2).

Definition ncc_denominator (f1 f2 : array3) (r s : nat) : R :=
  sqrt (sqnorm_at f1 r s * sqnorm_at f2 r s).

Definition same_shape (f1 f2 : array3) : Prop :=
  d0 f1 = d0 f2 /\ d1 f1 = d1 f2 /\ d2 f1 = d2 f2.

(** ** The patch normalizer *)

Module Slicing.

(** Python's adjustment of one bound of a slice with step 1 on an axis of
    length [len]: a negative bound counts from the end, and the result is
    clipped to [0, len]. *)
Definition adjust_index (len : nat) (i : Z) : Z :=
  let i := if (i <? 0)%Z then (i + Z.of_nat len)%Z else i in
  if (i <? 0)%Z then 0%Z
  else if (Z.of_nat len <? i)%Z then Z.of_nat len
  else i.

(** [start:stop] on an axis of length [len], as (first index, length);
    an omitted bound is [None]. *)
Definition slice (len : nat) (start stop : option Z) : nat * nat :=
  let a := match start with Some i => adjust_index len i | None => 0%Z end in
  let b := match stop with Some i => adjust_index len i | None => Z.of_nat len end in
  (Z.to_nat a, Z.to_nat (b - a)).

Definition in_slice (sl : nat * nat) (r : nat) : bool :=
  (fst sl <=? r)%nat && (r <? fst sl + snd sl)%nat.

(** An axis of length [src] can be assigned to one of length [dst] when the
    lengths agree or the source is stretched from length 1. *)
Definition broadcastable (src dst : nat) : bool :=
  (src =? dst)%nat || (src =? 1)%nat.

(** Source index read for destination index [r]. *)
Definition src_index (dst src : nat * nat) (r : nat) : nat :=
  if (snd src =? 1)%nat then fst src else (fst src + (r - fst dst))%nat.

End Slicing.

Import Slicing.

Module NpPatch.

Definition zeros5 (s0 s1 s2 s3 s4 : nat) : array5 :=
  mk5 s0 s1 s2 s3 s4 (fun _ _ _ _ _ => 0).

(** [dst[rows, cols, :, i, j] = src[srows, scols, :]]. *)
Definition assign_patch (dst : array5) (rows cols : nat * nat) (i j : nat)
    (src : array3) (srows scols : nat * nat) : result array5 :=
  if broadcastable (snd srows) (snd rows)
     && broadcastable (snd scols) (snd cols)
     && broadcastable (d2 src) (a5_d2 dst)
  then Ok (mk5 (a5_d0 dst) (a5_d1 dst) (a5_d2 dst) (a5_d3 dst) (a5_d4 dst)
             (fun r s ch a b =>
                if in_slice rows r && in_slice cols s && (a =? i)%nat && (b =? j)%nat
                then get3 src (src_index rows srows r) (src_index cols scols s)
                       (if (d2 src =? 1)%nat then O else ch)
                else get5 dst r s ch a b))
  else Raise ValueError.

Definition flat5 (a : array5) (p : nat) : R :=
  get5 a (p / (a5_d1 a * a5_d2 a * a5_d3 a * a5_d4 a))
         ((p / (a5_d2 a * a5_d3 a * a5_d4 a)) mod a5_d1 a)
         ((p / (a5_d3 a * a5_d4 a)) mod a5_d2 a)
         ((p / a5_d4 a) mod a5_d3 a)
         (p mod a5_d4 a).

Definition flat4 (a : array4) (p : nat) : R :=
  get4 a (p / (a4_d1 a * a4_d2 a * a4_d3 a))
         ((p / (a4_d2 a * a4_d3 a)) mod a4_d1 a)
         ((p / a4_d3 a) mod a4_d2 a)
         (p mod a4_d3 a).

(** The length numpy gives the axis written [-1], or the error it raises
    when the known axes have product 0 or do not divide the size. *)
Definition unknown_dim (size known : nat) : result nat :=
  if (known =? 0)%nat then Raise ValueError
  else if (size mod known =? 0)%nat then Ok (size / known)%nat
  else Raise ValueError.

(** [a.reshape(s0, s1, s2, -1)]. *)
Definition reshape5_4 (a : array5) (s0 s1 s2 : nat) : result array4 :=
  s3 <- unknown_dim (size5 a) (s0 * s1 * s2) ;;
  Ok (mk4 s0 s1 s2 s3
        (fun i0 i1 i2 i3 => flat5 a (((i0 * s1 + i1) * s2 + i2) * s3 + i3)%nat)).

(** [a.reshape(s0, s1, -1)]. *)
Definition reshape4_3 (a : array4) (s0 s1 : nat) : result array3 :=
  s2 <- unknown_dim (size4 a) (s0 * s1) ;;
  Ok (mk3 s0 s1 s2
        (fun i0 i1 i2 => flat4 a ((i0 * s1 + i1) * s2 + i2)%nat)).

(** [np.mean(a, axis=3, keepdims=True)], as the exact mean: the rounding of
    the float32 accumulation is not modelled. *)
Definition mean_axis3 (a : array4) : array4 :=
  mk4 (a4_d0 a) (a4_d1 a) (a4_d2 a) 1
      (fun i0 i1 i2 _ =>
         sum_n (a4_d3 a) (fun m => get4 a i0 i1 i2 m) / INR (a4_d3 a)).

(** [a - m] where [m] has length 1 on the last axis. *)
Definition sub4 (a m : array4) : array4 :=
  mk4 (a4_d0 a) (a4_d1 a) (a4_d2 a) (a4_d3 a)
      (fun i0 i1 i2 i3 => get4 a i0 i1 i2 i3 - get4 m i0 i1 i2 O).

(** [np.linalg.norm(a, axis=2, keepdims=True)]. *)
Definition norm_axis2 (a : array3) : array3 :=
  mk3 (d0 a) (d1 a) 1
      (fun i0 i1 _ => sqrt (sum_n (d2 a) (fun q => get3 a i0 i1 q ^ 2))).

(** [a[a == x] = v]. *)
Definition assign_where_eq3 (a : array3) (x v : R) : array3 :=
  mk3 (d0 a) (d1 a) (d2 a)
      (fun i0 i1 i2 => if Reqb (get3 a i0 i1 i2) x then v else get3 a i0 i1 i2).

Record mask3 : Type := mkmask {
  m_d0 : nat; m_d1 : nat; m_d2 : nat;
  getm : nat -> nat -> nat -> bool }.

(** [a >= x]. *)
Definition ge3 (a : array3) (x : R) : mask3 :=
  mkmask (d0 a) (d1 a) (d2 a) (fun i0 i1 i2 => Rgeb (get3 a i0 i1 i2) x).

(** [m[rows, :] = v] and [m[:, cols] = v]. *)
Definition assign_rows (m : mask3) (rows : nat * nat) (v : bool) : mask3 :=
  mkmask (m_d0 m) (m_d1 m) (m_d2 m)
         (fun i0 i1 i2 => if in_slice rows i0 then v else getm m i0 i1 i2).

Definition assign_cols (m : mask3) (cols : nat * nat) (v : bool) : mask3 :=
  mkmask (m_d0 m) (m_d1 m) (m_d2 m)
         (fun i0 i1 i2 => if in_slice cols i1 then v else getm m i0 i1 i2).

Definition b2r (b : bool) : R := if b then 1 else 0.

(** [a * m] and [a / n] where [m] and [n] have length 1 on the last axis. *)
Definition mul_mask3 (a : array3) (m : mask3) : array3 :=
  mk3 (d0 a) (d1 a) (d2 a)
      (fun i0 i1 i2 => get3 a i0 i1 i2 * b2r (getm m i0 i1 O)).

Definition div3 (a n : array3) : array3 :=
  mk3 (d0 a) (d1 a) (d2 a)
      (fun i0 i1 i2 => get3 a i0 i1 i2 / get3 n i0 i1 O).

End NpPatch.

Import NpPatch.

Definition for_range {S : Type} (n : nat) (body : nat -> S -> S) (s : S) : S :=
  fold_left (fun acc i => body i acc) (seq 0 n) s.

(** The loop of [preprocess_ncc_impl] that copies the window around every
    interior pixel into [normalized]. *)
Definition fill_patches (image : array3) (ncc_size : nat) : result array5 :=
  let h := d0 image in
  let w := d1 image in
  let c := d2 image in
  let normalized := zeros5 h w c ncc_size ncc_size in
  let k := (ncc_size / 2)%nat in
  let zh := Z.of_nat h in
  let zw := Z.of_nat w in
  let zk := Z.of_nat k in
  for_range ncc_size (fun i acc =>
    for_range ncc_size (fun j acc =>
      normalized <- acc ;;
      let zi := Z.of_nat i in
      let zj := Z.of_nat j in
      assign_patch normalized
        (slice h (Some zk) (Some (zh - zk)%Z))
        (slice w (Some zk) (Some (zw - zk)%Z))
        i j image
        (slice h (Some zi) (Some (zh - 2 * zk + zi)%Z))
        (slice w (Some zj) (Some (zw - 2 * zk + zj)%Z)))
      acc)
    (Ok normalized).

(** The threshold [1e-6]. *)
Definition eps : R := 1 / 1000000.

(** The validity mask: norm at least [eps], cleared on the [k]-margin. *)
Definition patch_mask (norm : array3) (k : nat) : mask3 :=
  let h := d0 norm in
  let w := d1 norm in
  let zk := Z.of_nat k in
  let mask := ge3 norm eps in
  let mask := assign_rows mask (slice h None (Some zk)) false in
  let mask := assign_rows mask (slice h (Some (- zk)%Z) None) false in
  let mask := assign_cols mask (slice w None (Some zk)) false in
  let mask := assign_cols mask (slice w (Some (- zk)%Z) None) false in
  mask.

(** [preprocess_ncc_impl] up to its last statement: the two arrays it
    divides, the masked mean-subtracted vectors and [norm], the latter after
    its zeros have been replaced by 1. *)
Definition preprocess_operands (image : array3) (ncc_size : nat)
  : result (array3 * array3) :=
  let h := d0 image in
  let w := d1 image in
  let c := d2 image in
  let k := (ncc_size / 2)%nat in
  normalized <- fill_patches image ncc_size ;;
  normalized <- reshape5_4 normalized h w c ;;
  let normalized := sub4 normalized (mean_axis3 normalized) in
  normalized <- reshape4_3 normalized h w ;;
  let norm := norm_axis2 normalized in
  let norm := assign_where_eq3 norm 0 1 in
  let mask := patch_mask norm k in
  let normalized := mul_mask3 normalized mask in
  Ok (normalized, norm).

Definition preprocess_ncc_impl (image : array3) (ncc_size : nat)
  : result array3 :=
  ops <- preprocess_operands image ncc_size ;;
  let normalized := div3 (fst ops) (snd ops) in
  Ok normalized.

(** The intermediate arrays of [preprocess_ncc_impl], named. *)

(** The raw patch vectors: [normalized] after the copy loop, flattened. *)
Definition raw_patches (image : array3) (ncc_size : nat) : result array3 :=
  normalized <- fill_patches image ncc_size ;;
  normalized <- reshape5_4 normalized (d0 image) (d1 image) (d2 image) ;;
  reshape4_3 normalized (d0 image) (d1 image).

(** The mean-subtracted patch vectors. *)
Definition centered_patches (image : array3) (ncc_size : nat) : result array3 :=
  normalized <- fill_patches image ncc_size ;;
  normalized <- reshape5_4 normalized (d0 image) (d1 image) (d2 image) ;;
  reshape4_3 (sub4 normalized (mean_axis3 normalized)) (d0 image) (d1 image).

(** A well-formed image has at least one pixel and one channel. *)
Definition is_image (image : array3) : Prop :=
  (0 < d0 image)%nat /\ (0 < d1 image)%nat /\ (0 < d2 image)%nat.

Definition interior (h w k r s : nat) : Prop :=
  (k <= r)%nat /\ (r + k < h)%nat /\ (k <= s)%nat /\ (s + k < w)%nat.

Definition margin (h w k r s : nat) : Prop :=
  (r < h)%nat /\ (s < w)%nat /\
  ((r < k)%nat \/ (h <= r + k)%nat \/ (s < k)%nat \/ (w <= s + k)%nat).

(** ** The geometry kernel *)

Module LinAlg.

(** Vectors and matrices of the fixed small sizes of the calibration data
    ([K] is 3 x 3, [Rt] is 3 x 4); the sizes are passed to the operations. *)
Definition vector : Type := nat -> R.
Definition matrix : Type := nat -> nat -> R.

Definition vzeros : vector := fun _ => 0.

(** [v[i] = x] and [A[i][j] = x]. *)
Definition vset (v : vector) (i : nat) (x : R) : vector :=
  fun i' => if (i' =? i)%nat then x else v i'.

Definition mset (A : matrix) (i j : nat) (x : R) : matrix :=
  fun i' j' => if (i' =? i)%nat && (j' =? j)%nat then x else A i' j'.

(** [np.dot(A, v)] for [A] with [n] columns. *)
Definition dot (n : nat) (A : matrix) (v : vector) : vector :=
  fun i => sum_n n (fun j => A i j * v j).

(** [v /= x] and [A *= x]. *)
Definition vdiv (v : vector) (x : R) : vector := fun i => v i / x.
Definition mscale (A : matrix) (x : R) : matrix := fun i j => A i j * x.

(** [np.pad(A, [(0, 1), (0, 0)], mode='constant')] for [A] with [m] rows. *)
Definition pad_bottom (m : nat) (A : matrix) : matrix :=
  fun i j => if (i <? m)%nat then A i j else 0.

(** Index of the [a]-th remaining row or column once [i] is removed. *)
Definition skip (i a : nat) : nat := if (a <? i)%nat then a else S a.

Definition minor (i j : nat) (A : matrix) : matrix :=
  fun a b => A (skip i a) (skip j b).

(** Determinant of the leading [n] x [n] block, expanded along row 0. *)
Fixpoint det (n : nat) (A : matrix) : R :=
  match n with
  | O => 1
  | S m => sum_n (S m) (fun j => (-1) ^ j * A O j * det m (minor O j A))
  end.

(** Adjugate: the transposed matrix of cofactors. *)
Definition adj (n : nat) (A : matrix) : matrix :=
  fun i j => (-1) ^ (i + j) * det (n - 1) (minor j i A).

(** [np.linalg.inv(A)] for an [n] x [n] matrix, in exact arithmetic: the
    adjugate over the determinant, or [LinAlgError] on a singular matrix. *)
Definition inv (n : nat) (A : matrix) : result matrix :=
  if Reqb (det n A) 0 then Raise LinAlgError
  else Ok (fun i j => adj n A i j / det n A).

End LinAlg.

Import LinAlg.

Definition zeros3 (s0 s1 s2 : nat) : array3 := mk3 s0 s1 s2 (fun _ _ _ => 0).

(** [a[i, j, k] = x]. *)
Definition set3 (a : array3) (i j k : nat) (x : R) : array3 :=
  mk3 (d0 a) (d1 a) (d2 a)
      (fun i' j' k' =>
         if (i' =? i)%nat && (j' =? j)%nat && (k' =? k)%nat then x
         else get3 a i' j' k').

(** One cell of [project_impl]. *)
Definition project_point (K Rt : matrix) (points : array3) (h w : nat) : vector :=
  let in_vec := vzeros in
  let in_vec := vset in_vec 0 (get3 points h w 0) in
  let in_vec := vset in_vec 1 (get3 points h w 1) in
  let in_vec := vset in_vec 2 (get3 points h w 2) in
  let in_vec := vset in_vec 3 1 in
  let ext_point := dot 4 Rt in_vec in
  let int_point := dot 3 K ext_point in
  let int_point := vdiv int_point (int_point 2%nat) in
  int_point.

(** [points] is height x width x 3, [K] is 3 x 3 and [Rt] is 3 x 4. *)
Definition project_impl (K Rt : matrix) (points : array3) : array3 :=
  let height := d0 points in
  let width := d1 points in
  let out_img := zeros3 height width 2 in
  for_range height (fun h out_img =>
    for_range width (fun w out_img =>
      let int_point := project_point K Rt points h w in
      let out_img := set3 out_img h w 0 (int_point 0%nat) in
      let out_img := set3 out_img h w 1 (int_point 1%nat) in
      out_img) out_img) out_img.

(** The camera-space point of [project_impl] before [K] is applied. *)
Definition ext_point_of (Rt : matrix) (points : array3) (h w : nat) : vector :=
  let in_vec := vzeros in
  let in_vec := vset in_vec 0 (get3 points h w 0) in
  let in_vec := vset in_vec 1 (get3 points h w 1) in
  let in_vec := vset in_vec 2 (get3 points h w 2) in
  let in_vec := vset in_vec 3 1 in
  dot 4 Rt in_vec.

(** The 4 x 4 homogeneous extension of [Rt]. *)
Definition extend_Rt (Rt : matrix) : matrix :=
  let Rt_inv := pad_bottom 3 Rt in
  let Rt_inv := mset Rt_inv 3 3 1 in
  Rt_inv.

(** One corner of [unproject_corners_impl], before the perspective divide:
    [np.dot(Rt_inv, temp_vec)]. *)
Definition unproject_homogeneous (K_inv Rt_inv : matrix) (px py : R) : vector :=
  let curr_vec := vzeros in
  let curr_vec := vset curr_vec 0 px in
  let curr_vec := vset curr_vec 1 py in
  let curr_vec := vset curr_vec 2 1 in
  let curr_vec := dot 3 K_inv curr_vec in
  let temp_vec := vzeros in
  let temp_vec := vset temp_vec 0 (curr_vec 0%nat) in
  let temp_vec := vset temp_vec 1 (curr_vec 1%nat) in
  let temp_vec := vset temp_vec 2 (curr_vec 2%nat) in
  let temp_vec := vset temp_vec 3 1 in
  dot 4 Rt_inv temp_vec.

Definition unproject_corners_impl (K : matrix) (width height : Z) (depth : R)
    (Rt : matrix) : result array3 :=
  let Rt_inv := extend_Rt Rt in
  Rt_inv <- inv 4 Rt_inv ;;
  K_inv <- inv 3 K ;;
  let K_inv := mscale K_inv depth in
  let out_corners := zeros3 2 2 3 in
  let out_corners := set3 out_corners 0 0 0 0 in
  let out_corners := set3 out_corners 0 0 1 0 in
  let out_corners := set3 out_corners 1 0 0 0 in
  let out_corners := set3 out_corners 1 0 1 (IZR (height - 1)) in
  let out_corners := set3 out_corners 0 1 0 (IZR (width - 1)) in
  let out_corners := set3 out_corners 0 1 1 0 in
  let out_corners := set3 out_corners 1 1 0 (IZR (width - 1)) in
  let out_corners := set3 out_corners 1 1 1 (IZR (height - 1)) in
  Ok (for_range 2 (fun h out_corners =>
        for_range 2 (fun w out_corners =>
          let curr_vec :=
            unproject_homogeneous K_inv Rt_inv
              (get3 out_corners h w 0) (get3 out_corners h w 1) in
          let curr_vec := vdiv curr_vec (curr_vec 3%nat) in
          let out_corners := set3 out_corners h w 0 (curr_vec 0%nat) in
          let out_corners := set3 out_corners h w 1 (curr_vec 1%nat) in
          let out_corners := set3 out_corners h w 2 (curr_vec 2%nat) in
          out_corners) out_corners) out_corners).

(** ** Comparing results *)

(** Two results agree when they raise the same exception or return arrays
    of the same shape with equal entries. *)
Definition result_agree2 (x y : result array2) : Prop :=
  match x, y with
  | Ok a, Ok b =>
      a2_d0 a = a2_d0 b /\ a2_d1 a = a2_d1 b /\
      forall r s, (r < a2_d0 a)%nat -> (s < a2_d1 a)%nat -> get2 a r s = get2 b r s
  | Raise e, Raise e' => e = e'
  | _, _ => False
  end.

(** The divisor [compute_ncc_impl] uses once zeros are replaced by 1. *)
Definition ncc_divisor (f1 f2 : array3) (r s : nat) : R :=
  if Reqb (ncc_denominator f1 f2 r s) 0 then 1 else ncc_denominator f1 f2 r s.

(** Small concrete fields used to exercise the kernels. *)
Definition ones_field : array3 := mk3 1 1 2 (fun _ _ _ => 1).
Definition field_1x2 : array3 := mk3 1 2 1 (fun _ _ _ => 1).
Definition field_2x1 : array3 := mk3 2 1 1 (fun _ _ _ => 1).
Definition field_1x3 : array3 := mk3 1 3 1 (fun _ _ _ => 1).


(** ** Specification of the copy loop *)

Definition in_interior (h w k r s : nat) : bool :=
  (k <=? r)%nat && (r + k <? h)%nat && (k <=? s)%nat && (s + k <? w)%nat.

(** [filled image n W st]: the loop state [st] is an array of the shape of
    [normalized] holding, at every interior pixel and every window offset
    selected by [W], the image value under that offset, and 0 elsewhere. *)
Definition filled (image : array3) (ncc_size : nat) (W : nat -> nat -> bool)
    (st : result array5) : Prop :=
  let k := (ncc_size / 2)%nat in
  exists P,
    st = Ok P /\
    a5_d0 P = d0 image /\ a5_d1 P = d1 image /\ a5_d2 P = d2 image /\
    a5_d3 P = ncc_size /\ a5_d4 P = ncc_size /\
    forall r s ch a b, (ch < d2 image)%nat ->
      get5 P r s ch a b =
        if in_interior (d0 image) (d1 image) k r s && W a b
        then get3 image (r - k + a) (s - k + b) ch
        else 0.

(** The image value under window offset (a, b) of the pixel (r, s), or 0
    when the pixel is not interior or the offset is outside the window. *)
Definition window_value (image : array3) (ncc_size : nat)
    (r s ch a b : nat) : R :=
  let k := (ncc_size / 2)%nat in
  if in_interior (d0 image) (d1 image) k r s
     && ((a <? ncc_size)%nat && (b <? ncc_size)%nat)
  then get3 image (r - k + a) (s - k + b) ch
  else 0.

(** The tail of [preprocess_ncc_impl], from the mean-subtracted vectors. *)
Definition normalize_patches (normalized : array3) (k : nat) : array3 :=
  let norm := norm_axis2 normalized in
  let norm := assign_where_eq3 norm 0 1 in
  let mask := patch_mask norm k in
  let normalized := mul_mask3 normalized mask in
  let normalized := div3 normalized norm in
  normalized.

(** A 3 x 3 single-channel image with arbitrary content. *)
Definition image_3x3 (pix : nat -> nat -> nat -> R) : array3 := mk3 3 3 1 pix.

(** A 3 x 3 single-channel image of constant value 7. *)
Definition grey_3x3 : array3 := image_3x3 (fun _ _ _ => 7).

(** Pixel coordinates of the corner stored at grid position [i][j]. *)
Definition corner_x (width : Z) (j : nat) : R :=
  if (j =? 0)%nat then 0 else IZR (width - 1).
Definition corner_y (height : Z) (i : nat) : R :=
  if (i =? 0)%nat then 0 else IZR (height - 1).

(** Example calibration: focal length 2, principal point (1, 1), and a
    camera translated by (1, 2, 3). *)
Definition K_example : matrix :=
  fun i j =>
    match i, j with
    | 0%nat, 0%nat => 2 | 0%nat, 2%nat => 1
    | 1%nat, 1%nat => 2 | 1%nat, 2%nat => 1
    | 2%nat, 2%nat => 1
    | _, _ => 0
    end.

Definition Rt_example : matrix :=
  fun i j =>
    match i, j with
    | 0%nat, 0%nat => 1 | 0%nat, 3%nat => 1
    | 1%nat, 1%nat => 1 | 1%nat, 3%nat => 2
    | 2%nat, 2%nat => 1 | 2%nat, 3%nat => 3
    | _, _ => 0
    end.

(** ** Transformations of inputs, used to state invariance properties *)

(** Every entry multiplied by [a]. *)
Definition scale3 (a : R) (f : array3) : array3 :=
  mk3 (d0 f) (d1 f) (d2 f) (fun r s q => a * get3 f r s q).

(** A 3 x 3 single-channel image that is 0 except for a 1 at the centre. *)
Definition spot_3x3 : array3 :=
  image_3x3 (fun r s _ => if (r =? 1)%nat && (s =? 1)%nat then 1 else 0).

(** A 4 x 4 array with no channels. *)
Definition no_channels_4x4 : array3 := mk3 4 4 0 (fun _ _ _ => 0).

(** Two 3 x 4 single-channel images that differ only in the last column. *)
Definition ramp_3x4 : array3 := mk3 3 4 1 (fun _ s _ => INR s).
Definition ramp_3x4' : array3 :=
  mk3 3 4 1 (fun _ s _ => if (s =? 3)%nat then 100 else INR s).

(** Two 1 x 1 point fields: the world origin, and the point (1, 2, 3). *)
Definition origin_field : array3 := mk3 1 1 3 (fun _ _ _ => 0).
Definition point_123_field : array3 :=
  mk3 1 1 3 (fun _ _ c => match c with O => 1 | S O => 2 | _ => 3 end).

(** * Proofs *)

(** ** Sums *)

Lemma sum_n_ext (n : nat) (f g : nat -> R) :
  (forall i, (i < n)%nat -> f i = g i) -> sum_n n f = sum_n n g.
Proof.
  induction n as [|n IH]; intros E; simpl; [reflexivity|].
  rewrite IH by (intros; apply E; lia).
  rewrite E by lia. reflexivity.
Qed.

Lemma sum_n_1 (f : nat -> R) : sum_n 1 f = f O.
Proof. simpl. ring. Qed.

Lemma sum_n_zero (n : nat) (f : nat -> R) :
  (forall i, (i < n)%nat -> f i = 0) -> sum_n n f = 0.
Proof.
  induction n as [|n IH]; intros E; simpl; [reflexivity|].
  rewrite IH by (intros; apply E; lia).
  rewrite E by lia. ring.
Qed.

Lemma sum_n_const (n : nat) (v : R) : sum_n n (fun _ => v) = INR n * v.
Proof.
  induction n as [|n IH]; [simpl; ring|].
  change (sum_n (S n) (fun _ => v)) with (sum_n n (fun _ => v) + v).
  rewrite IH, S_INR. ring.
Qed.

Lemma sum_n_sq_nonneg (n : nat) (f : nat -> R) : 0 <= sum_n n (fun i => f i ^ 2).
Proof.
  induction n as [|n IH]; cbn [sum_n]; [lra|].
  pose proof (pow2_ge_0 (f n)) as H. lra.
Qed.

Lemma sum_n_sq_eq_0 (n : nat) (f : nat -> R) :
  sum_n n (fun i => f i ^ 2) = 0 -> forall i, (i < n)%nat -> f i = 0.
Proof.
  induction n as [|n IH]; intros E i Hi; [lia|].
  cbn [sum_n] in E.
  pose proof (sum_n_sq_nonneg n f) as Hs.
  pose proof (pow2_ge_0 (f n)) as Hn.
  destruct (Nat.eq_dec i n) as [->|Hne].
  - assert (Hz : f n * f n = 0) by lra.
    apply Rmult_integral in Hz. tauto.
  - apply IH; [lra | lia].
Qed.


(** ** Row-major indexing *)

Lemma unravel_last (a n b : nat) :
  (b < n)%nat -> ((a * n + b) / n = a /\ (a * n + b) mod n = b)%nat.
Proof.
  intros Hb. split.
  - symmetry. apply (Nat.div_unique _ _ _ b); lia.
  - symmetry. apply (Nat.mod_unique _ _ a); lia.
Qed.

Lemma flat3_ravel (a : array3) (r s q : nat) :
  (s < d1 a)%nat -> (q < d2 a)%nat ->
  flat3 a ((r * d1 a + s) * d2 a + q) = get3 a r s q.
Proof.
  intros Hs Hq. unfold flat3.
  destruct (unravel_last (r * d1 a + s) (d2 a) q Hq) as [E1 E2].
  destruct (unravel_last r (d1 a) s Hs) as [E3 E4].
  rewrite E1, E2, E4.
  replace (((r * d1 a + s) * d2 a + q) / (d1 a * d2 a))%nat with r; [reflexivity|].
  apply (Nat.div_unique _ _ _ (s * d2 a + q)); nia.
Qed.

(** ** The correlation kernel *)

Lemma Reqb_true (x y : R) : x = y -> Reqb x y = true.
Proof. intros ->. unfold Reqb. destruct (Req_dec_T y y); congruence. Qed.

Lemma Reqb_false (x y : R) : x <> y -> Reqb x y = false.
Proof. intros H. unfold Reqb. destruct (Req_dec_T x y); congruence. Qed.

(** With a non-empty feature axis the kernel reshapes both fields to
    (h, w, c, 1, 1), and succeeds exactly when the second field has as many
    elements as the first. *)
Lemma compute_ncc_unfold (f1 f2 : array3) :
  (0 < d2 f1)%nat ->
  compute_ncc_impl f1 f2 =
    (im2 <- reshape3_5 f2 (d0 f1) (d1 f1) (d2 f1) 1 1 ;;
     let im1 := mk5 (d0 f1) (d1 f1) (d2 f1) 1 1
                  (fun i0 i1 i2 i3 i4 =>
                     flat3 f1 (ravel5 (d1 f1) (d2 f1) 1 1 i0 i1 i2 i3 i4)) in
     Ok (div2 (sum_axes234 (mul5 im1 im2))
              (assign_where_eq2
                 (sqrt2 (mul2 (sum_axes234 (square5 im1))
                              (sum_axes234 (square5 im2)))) 0 1))).
Proof.
  intros HL. unfold compute_ncc_impl, ncc_operands, floordiv.
  destruct (Nat.eqb_spec (d2 f1) 0) as [E|_]; [lia|].
  cbn [bind].
  rewrite Nat.div_same by lia. rewrite Nat.sqrt_1.
  unfold reshape3_5 at 1.
  replace (size3 f1 =? d0 f1 * d1 f1 * d2 f1 * 1 * 1)%nat with true
    by (symmetry; apply Nat.eqb_eq; unfold size3; lia).
  cbn [bind].
  destruct (reshape3_5 f2 (d0 f1) (d1 f1) (d2 f1) 1 1); reflexivity.
Qed.

(** The same for the operands of the final division. *)
Lemma ncc_operands_unfold (f1 f2 : array3) :
  (0 < d2 f1)%nat ->
  ncc_operands f1 f2 =
    (im2 <- reshape3_5 f2 (d0 f1) (d1 f1) (d2 f1) 1 1 ;;
     let im1 := mk5 (d0 f1) (d1 f1) (d2 f1) 1 1
                  (fun i0 i1 i2 i3 i4 =>
                     flat3 f1 (ravel5 (d1 f1) (d2 f1) 1 1 i0 i1 i2 i3 i4)) in
     Ok (sum_axes234 (mul5 im1 im2),
         assign_where_eq2
           (sqrt2 (mul2 (sum_axes234 (square5 im1))
                        (sum_axes234 (square5 im2)))) 0 1)).
Proof.
  intros HL. unfold ncc_operands, floordiv.
  destruct (Nat.eqb_spec (d2 f1) 0) as [E|_]; [lia|].
  cbn [bind].
  rewrite Nat.div_same by lia. rewrite Nat.sqrt_1.
  unfold reshape3_5 at 1.
  replace (size3 f1 =? d0 f1 * d1 f1 * d2 f1 * 1 * 1)%nat with true
    by (symmetry; apply Nat.eqb_eq; unfold size3; lia).
  reflexivity.
Qed.

(** On equally shaped fields the operands are the dot product and the
    denominator with its zeros replaced by 1. *)
Lemma ncc_operands_same_shape (f1 f2 : array3) :
  same_shape f1 f2 -> (0 < d2 f1)%nat ->
  exists numerator denominator,
    ncc_operands f1 f2 = Ok (numerator, denominator) /\
    a2_d0 numerator = d0 f1 /\ a2_d1 numerator = d1 f1 /\
    forall r s, (s < d1 f1)%nat ->
      get2 numerator r s = dot_at f1 f2 r s /\
      get2 denominator r s = ncc_divisor f1 f2 r s.
Proof.
  intros (E0 & E1 & E2) HL.
  rewrite ncc_operands_unfold by exact HL.
  unfold reshape3_5.
  replace (size3 f2 =? d0 f1 * d1 f1 * d2 f1 * 1 * 1)%nat with true
    by (symmetry; apply Nat.eqb_eq; unfold size3; rewrite E0, E1, E2; lia).
  cbn [bind]. eexists. eexists. split; [reflexivity|].
  split; [reflexivity|]. split; [reflexivity|].
  intros r s Hs.
  assert (G1 : forall q, (q < d2 f1)%nat ->
             flat3 f1 (ravel5 (d1 f1) (d2 f1) 1 1 r s q 0 0) = get3 f1 r s q).
  { intros q Hq. unfold ravel5.
    replace ((((r * d1 f1 + s) * d2 f1 + q) * 1 + 0) * 1 + 0)%nat
      with ((r * d1 f1 + s) * d2 f1 + q)%nat by lia.
    apply flat3_ravel; assumption. }
  assert (G2 : forall q, (q < d2 f1)%nat ->
             flat3 f2 (ravel5 (d1 f1) (d2 f1) 1 1 r s q 0 0) = get3 f2 r s q).
  { intros q Hq. unfold ravel5.
    replace ((((r * d1 f1 + s) * d2 f1 + q) * 1 + 0) * 1 + 0)%nat
      with ((r * d1 f2 + s) * d2 f2 + q)%nat by (rewrite E1, E2; lia).
    apply flat3_ravel; lia. }
  split.
  - cbn [get2 sum_axes234 mul5 get5 a5_d2 a5_d3 a5_d4]. unfold dot_at.
    apply sum_n_ext. intros q Hq. rewrite !sum_n_1, G1, G2 by assumption.
    reflexivity.
  - unfold ncc_divisor, ncc_denominator, assign_where_eq2, sqrt2, mul2.
    cbn [get2 sum_axes234 square5 get5 a5_d2 a5_d3 a5_d4].
    assert (Hsq1 :
      sum_n (d2 f1) (fun i2 => sum_n 1 (fun i3 => sum_n 1 (fun i4 =>
        flat3 f1 (ravel5 (d1 f1) (d2 f1) 1 1 r s i2 i3 i4) ^ 2)))
      = sqnorm_at f1 r s).
    { unfold sqnorm_at. apply sum_n_ext. intros q Hq.
      rewrite !sum_n_1, G1 by assumption. reflexivity. }
    assert (Hsq2 :
      sum_n (d2 f1) (fun i2 => sum_n 1 (fun i3 => sum_n 1 (fun i4 =>
        flat3 f2 (ravel5 (d1 f1) (d2 f1) 1 1 r s i2 i3 i4) ^ 2)))
      = sqnorm_at f2 r s).
    { unfold sqnorm_at. rewrite <- E2. apply sum_n_ext. intros q Hq.
      rewrite !sum_n_1, G2 by assumption. reflexivity. }
    rewrite Hsq1, Hsq2. reflexivity.
Qed.

Lemma compute_ncc_same_shape (f1 f2 : array3) :
  same_shape f1 f2 -> (0 < d2 f1)%nat ->
  exists ncc,
    compute_ncc_impl f1 f2 = Ok ncc /\
    a2_d0 ncc = d0 f1 /\ a2_d1 ncc = d1 f1 /\
    forall r s, (s < d1 f1)%nat ->
      get2 ncc r s = dot_at f1 f2 r s / ncc_divisor f1 f2 r s.
Proof.
  intros (E0 & E1 & E2) HL.
  rewrite compute_ncc_unfold by exact HL.
  unfold reshape3_5.
  replace (size3 f2 =? d0 f1 * d1 f1 * d2 f1 * 1 * 1)%nat with true
    by (symmetry; apply Nat.eqb_eq; unfold size3; rewrite E0, E1, E2; lia).
  cbn [bind]. eexists. split; [reflexivity|].
  split; [reflexivity|]. split; [reflexivity|].
  intros r s Hs.
  assert (G1 : forall q, (q < d2 f1)%nat ->
             flat3 f1 (ravel5 (d1 f1) (d2 f1) 1 1 r s q 0 0) = get3 f1 r s q).
  { intros q Hq. unfold ravel5.
    replace ((((r * d1 f1 + s) * d2 f1 + q) * 1 + 0) * 1 + 0)%nat
      with ((r * d1 f1 + s) * d2 f1 + q)%nat by lia.
    apply flat3_ravel; assumption. }
  assert (G2 : forall q, (q < d2 f1)%nat ->
             flat3 f2 (ravel5 (d1 f1) (d2 f1) 1 1 r s q 0 0) = get3 f2 r s q).
  { intros q Hq. unfold ravel5.
    replace ((((r * d1 f1 + s) * d2 f1 + q) * 1 + 0) * 1 + 0)%nat
      with ((r * d1 f2 + s) * d2 f2 + q)%nat by (rewrite E1, E2; lia).
    apply flat3_ravel; lia. }
  assert (Hnum :
    get2 (sum_axes234
            (mul5 (mk5 (d0 f1) (d1 f1) (d2 f1) 1 1
                     (fun i0 i1 i2 i3 i4 =>
                        flat3 f1 (ravel5 (d1 f1) (d2 f1) 1 1 i0 i1 i2 i3 i4)))
                  (mk5 (d0 f1) (d1 f1) (d2 f1) 1 1
                     (fun i0 i1 i2 i3 i4 =>
                        flat3 f2 (ravel5 (d1 f1) (d2 f1) 1 1 i0 i1 i2 i3 i4))))) r s
    = dot_at f1 f2 r s).
  { cbn [get2 sum_axes234 mul5 get5 a5_d2 a5_d3 a5_d4]. unfold dot_at.
    apply sum_n_ext. intros q Hq. rewrite !sum_n_1, G1, G2 by assumption.
    reflexivity. }
  assert (Hsq1 :
    get2 (sum_axes234
            (square5 (mk5 (d0 f1) (d1 f1) (d2 f1) 1 1
                     (fun i0 i1 i2 i3 i4 =>
                        flat3 f1 (ravel5 (d1 f1) (d2 f1) 1 1 i0 i1 i2 i3 i4))))) r s
    = sqnorm_at f1 r s).
  { cbn [get2 sum_axes234 square5 get5 a5_d2 a5_d3 a5_d4]. unfold sqnorm_at.
    apply sum_n_ext. intros q Hq. rewrite !sum_n_1, G1 by assumption.
    reflexivity. }
  assert (Hsq2 :
    get2 (sum_axes234
            (square5 (mk5 (d0 f1) (d1 f1) (d2 f1) 1 1
                     (fun i0 i1 i2 i3 i4 =>
                        flat3 f2 (ravel5 (d1 f1) (d2 f1) 1 1 i0 i1 i2 i3 i4))))) r s
    = sqnorm_at f2 r s).
  { cbn [get2 sum_axes234 square5 get5 a5_d2 a5_d3 a5_d4]. unfold sqnorm_at.
    rewrite <- E2.
    apply sum_n_ext. intros q Hq. rewrite !sum_n_1, G2 by assumption.
    reflexivity. }
  unfold div2, assign_where_eq2, sqrt2, mul2. cbn [get2].
  rewrite Hnum, Hsq1, Hsq2. reflexivity.
Qed.

Lemma sqnorm_at_nonneg (f : array3) (r s : nat) : 0 <= sqnorm_at f r s.
Proof. apply sum_n_sq_nonneg. Qed.


(** A zero denominator forces a zero numerator: one of the two vectors is
    the zero vector. *)
Lemma ncc_denominator_0_dot_0 (f1 f2 : array3) (r s : nat) :
  d2 f1 = d2 f2 -> ncc_denominator f1 f2 r s = 0 -> dot_at f1 f2 r s = 0.
Proof.
  intros E2 Hden. unfold ncc_denominator in Hden.
  apply sqrt_eq_0 in Hden.
  2:{ apply Rmult_le_pos; apply sqnorm_at_nonneg. }
  unfold dot_at. apply sum_n_zero. intros q Hq.
  apply Rmult_integral in Hden. destruct Hden as [H1|H2].
  - rewrite (sum_n_sq_eq_0 _ _ H1 q Hq). ring.
  - rewrite (sum_n_sq_eq_0 _ _ H2 q) by lia. ring.
Qed.

(** C2, as stated, fails: two fields of shapes 1 x 2 x 1 and 2 x 1 x 1 are
    accepted, the second being re-read in the shape of the first, and a
    1 x 2 score field is returned. *)
Lemma compute_ncc_accepts_mismatched_shapes :
  ~ same_shape field_1x2 field_2x1 /\
  exists ncc,
    compute_ncc_impl field_1x2 field_2x1 = Ok ncc /\
    a2_d0 ncc = 1%nat /\ a2_d1 ncc = 2%nat.
Proof.
  split.
  - unfold same_shape, field_1x2, field_2x1. cbn [d0 d1 d2]. lia.
  - rewrite compute_ncc_unfold by (cbn [d2 field_1x2]; lia).
    unfold reshape3_5. cbn [size3 field_2x1 field_1x2 d0 d1 d2 Nat.mul Nat.add Nat.eqb bind].
    eexists. split; [reflexivity|]. split; reflexivity.
Qed.

(** C2 (amended): for a first field with a non-empty feature axis,
    [compute_ncc_impl] raises [ValueError] exactly when the two fields differ
    in their total number of elements. *)
Theorem compute_ncc_rejects_iff_sizes_differ (f1 f2 : array3) :
  (0 < d2 f1)%nat ->
  (compute_ncc_impl f1 f2 = Raise ValueError <-> size3 f1 <> size3 f2).
Proof.
  intros HL. rewrite compute_ncc_unfold by exact HL.
  unfold reshape3_5.
  replace (d0 f1 * d1 f1 * d2 f1 * 1 * 1)%nat with (size3 f1)
    by (unfold size3; lia).
  destruct (Nat.eqb_spec (size3 f2) (size3 f1)) as [E|NE]; cbn [bind].
  - split; [discriminate | intros H; congruence].
  - split; [intros _; congruence | reflexivity].
Qed.

Lemma compute_ncc_rejects_iff_sizes_differ_witness :
  (0 < d2 field_1x2)%nat /\
  (compute_ncc_impl field_1x2 field_1x3 = Raise ValueError
   <-> size3 field_1x2 <> size3 field_1x3).
Proof.
  split.
  - cbn [d2 field_1x2]. lia.
  - apply (compute_ncc_rejects_iff_sizes_differ field_1x2 field_1x3).
    cbn [d2 field_1x2]. lia.
Defined.

(** The kernel's result is the quotient of its two operands. *)
Lemma compute_ncc_of_operands (f1 f2 : array3) (numerator denominator : array2) :
  ncc_operands f1 f2 = Ok (numerator, denominator) ->
  compute_ncc_impl f1 f2 = Ok (div2 numerator denominator).
Proof. intros E. unfold compute_ncc_impl. rewrite E. reflexivity. Qed.






Lemma dot_at_sym (f1 f2 : array3) (r s : nat) :
  d2 f1 = d2 f2 -> dot_at f1 f2 r s = dot_at f2 f1 r s.
Proof.
  intros E. unfold dot_at. rewrite E. apply sum_n_ext. intros; ring.
Qed.

Lemma ncc_denominator_sym (f1 f2 : array3) (r s : nat) :
  ncc_denominator f1 f2 r s = ncc_denominator f2 f1 r s.
Proof. unfold ncc_denominator. rewrite Rmult_comm. reflexivity. Qed.

(** C8: on equally shaped fields the kernel is symmetric: numerator and
    denominator are symmetric at every pixel, and the two calls return equal
    score fields (or raise the same exception). *)
Theorem compute_ncc_symmetric (f1 f2 : array3) :
  same_shape f1 f2 ->
  result_agree2 (compute_ncc_impl f1 f2) (compute_ncc_impl f2 f1) /\
  forall r s,
    dot_at f1 f2 r s = dot_at f2 f1 r s /\
    ncc_denominator f1 f2 r s = ncc_denominator f2 f1 r s.
Proof.
  intros Hsh. split.
  2:{ intros r s. split; [apply dot_at_sym, Hsh | apply ncc_denominator_sym]. }
  destruct Hsh as (E0 & E1 & E2).
  destruct (Nat.eq_dec (d2 f1) 0) as [Z|NZ].
  - unfold compute_ncc_impl, ncc_operands, floordiv. rewrite <- E2, Z. cbn.
    reflexivity.
  - assert (S12 : same_shape f1 f2) by (repeat split; assumption).
    assert (S21 : same_shape f2 f1) by (repeat split; symmetry; assumption).
    destruct (compute_ncc_same_shape f1 f2 S12) as (a & Ea & A0 & A1 & Ga); [lia|].
    destruct (compute_ncc_same_shape f2 f1 S21) as (b & Eb & B0 & B1 & Gb); [lia|].
    rewrite Ea, Eb. cbn [result_agree2].
    split; [congruence|]. split; [congruence|].
    intros r s Hr Hs. rewrite Ga, Gb by lia.
    unfold ncc_divisor.
    rewrite (dot_at_sym f1 f2 r s E2), (ncc_denominator_sym f1 f2 r s).
    reflexivity.
Qed.

Lemma compute_ncc_symmetric_witness :
  same_shape ones_field ones_field /\
  result_agree2 (compute_ncc_impl ones_field ones_field)
                (compute_ncc_impl ones_field ones_field) /\
  forall r s,
    dot_at ones_field ones_field r s = dot_at ones_field ones_field r s /\
    ncc_denominator ones_field ones_field r s
    = ncc_denominator ones_field ones_field r s.
Proof.
  assert (Hs : same_shape ones_field ones_field) by (repeat split).
  split; [exact Hs|].
  exact (compute_ncc_symmetric ones_field ones_field Hs).
Defined.

(** ** Slices *)

Lemma adjust_index_nonneg (len : nat) (i : Z) :
  (0 <= i)%Z -> adjust_index len i = Z.min i (Z.of_nat len).
Proof.
  intros H. unfold adjust_index.
  destruct (Z.ltb_spec i 0); [lia|].
  destruct (Z.ltb_spec i 0); [lia|].
  destruct (Z.ltb_spec (Z.of_nat len) i); lia.
Qed.

Lemma adjust_index_neg (len : nat) (i : Z) :
  (i < 0)%Z -> adjust_index len i = Z.max 0 (i + Z.of_nat len).
Proof.
  intros H. unfold adjust_index.
  destruct (Z.ltb_spec i 0); [|lia].
  destruct (Z.ltb_spec (i + Z.of_nat len) 0); [lia|].
  destruct (Z.ltb_spec (Z.of_nat len) (i + Z.of_nat len)); lia.
Qed.

Lemma slice_within (len a b : nat) :
  (a <= b)%nat -> (b <= len)%nat ->
  slice len (Some (Z.of_nat a)) (Some (Z.of_nat b)) = (a, (b - a)%nat).
Proof.
  intros Hab Hb. unfold slice.
  rewrite !adjust_index_nonneg by lia.
  f_equal; lia.
Qed.

(** Destination rows [k : h-k] and source rows [i : h-2k+i]. *)
Lemma slice_dst (h k : nat) :
  (2 * k <= h)%nat ->
  slice h (Some (Z.of_nat k)) (Some (Z.of_nat h - Z.of_nat k)%Z)
  = (k, (h - 2 * k)%nat).
Proof.
  intros H.
  replace (Z.of_nat h - Z.of_nat k)%Z with (Z.of_nat (h - k)) by lia.
  rewrite slice_within by lia. f_equal. lia.
Qed.

Lemma slice_src (h k i : nat) :
  (2 * k <= h)%nat -> (i <= 2 * k)%nat ->
  slice h (Some (Z.of_nat i)) (Some (Z.of_nat h - 2 * Z.of_nat k + Z.of_nat i)%Z)
  = (i, (h - 2 * k)%nat).
Proof.
  intros H Hi.
  replace (Z.of_nat h - 2 * Z.of_nat k + Z.of_nat i)%Z
    with (Z.of_nat (h - 2 * k + i)) by lia.
  rewrite slice_within by lia. f_equal. lia.
Qed.

(** The leading margin [:k] and the trailing margin [-k:]. *)
Lemma in_slice_head (h k r : nat) :
  (r < h)%nat ->
  in_slice (slice h None (Some (Z.of_nat k))) r = (r <? k)%nat.
Proof.
  intros Hr. unfold in_slice, slice. cbn [fst snd].
  rewrite adjust_index_nonneg by lia.
  destruct (Nat.ltb_spec r k);
  [apply andb_true_iff | apply andb_false_iff];
  rewrite ?Nat.leb_le, ?Nat.ltb_lt, ?Nat.leb_gt, ?Nat.ltb_ge; lia.
Qed.

Lemma in_slice_tail (h k r : nat) :
  (r < h)%nat ->
  in_slice (slice h (Some (- Z.of_nat k)%Z) None) r
  = ((k =? 0)%nat || (h <=? r + k)%nat).
Proof.
  intros Hr. unfold in_slice, slice. cbn [fst snd].
  destruct (Nat.eqb_spec k 0) as [->|Hk]; cbn [orb].
  - rewrite adjust_index_nonneg by (cbn; lia).
    apply andb_true_iff.
    rewrite Nat.leb_le, Nat.ltb_lt. cbn. lia.
  - rewrite adjust_index_neg by lia.
    destruct (Nat.leb_spec h (r + k));
    [apply andb_true_iff | apply andb_false_iff];
    rewrite ?Nat.leb_le, ?Nat.ltb_lt, ?Nat.leb_gt, ?Nat.ltb_ge; lia.
Qed.

(** ** Loops *)

Lemma for_range_S {S : Type} (n : nat) (body : nat -> S -> S) (s : S) :
  for_range (Datatypes.S n) body s = body n (for_range n body s).
Proof.
  unfold for_range. rewrite seq_S, fold_left_app. reflexivity.
Qed.

Lemma for_range_0 {S : Type} (body : nat -> S -> S) (s : S) :
  for_range 0 body s = s.
Proof. reflexivity. Qed.

(** A loop invariant indexed by the number of completed iterations. *)
Lemma for_range_ind {S : Type} (P : nat -> S -> Prop) (n : nat)
    (body : nat -> S -> S) (s : S) :
  P O s ->
  (forall i st, (i < n)%nat -> P i st -> P (Datatypes.S i) (body i st)) ->
  P n (for_range n body s).
Proof.
  intros H0 Hstep.
  assert (G : forall m, (m <= n)%nat -> P m (for_range m body s)).
  { induction m as [|m IH]; intros Hm; [exact H0|].
    rewrite for_range_S. apply Hstep; [lia | apply IH; lia]. }
  apply G. lia.
Qed.

(** ** The copy loop *)

Lemma in_slice_interior (h w k r s : nat) :
  (2 * k <= h)%nat -> (2 * k <= w)%nat ->
  in_slice (k, (h - 2 * k)%nat) r && in_slice (k, (w - 2 * k)%nat) s
  = in_interior h w k r s.
Proof.
  intros Hh Hw. unfold in_slice, in_interior. cbn [fst snd].
  apply eq_iff_eq_true.
  rewrite !andb_true_iff, !Nat.leb_le, !Nat.ltb_lt. lia.
Qed.

Lemma in_interior_true (h w k r s : nat) :
  in_interior h w k r s = true <-> interior h w k r s.
Proof.
  unfold in_interior, interior.
  rewrite !andb_true_iff, !Nat.leb_le, !Nat.ltb_lt. tauto.
Qed.

Lemma filled_ext (image : array3) (n : nat) (W W' : nat -> nat -> bool)
    (st : result array5) :
  (forall a b, W a b = W' a b) -> filled image n W st -> filled image n W' st.
Proof.
  intros E (P & -> & D0 & D1 & D2 & D3 & D4 & G).
  exists P. repeat split; try assumption.
  intros r s ch a b Hch. rewrite G by exact Hch. rewrite E. reflexivity.
Qed.

(** One iteration of the inner loop body writes offset (i, j). *)
Lemma filled_step (image : array3) (n i j : nat) (W : nat -> nat -> bool)
    (st : result array5) :
  let h := d0 image in
  let w := d1 image in
  let k := (n / 2)%nat in
  (2 * k <= h)%nat -> (2 * k <= w)%nat -> (i <= 2 * k)%nat -> (j <= 2 * k)%nat ->
  filled image n W st ->
  filled image n (fun a b => W a b || (a =? i)%nat && (b =? j)%nat)
    (normalized <- st ;;
     assign_patch normalized
       (slice h (Some (Z.of_nat k)) (Some (Z.of_nat h - Z.of_nat k)%Z))
       (slice w (Some (Z.of_nat k)) (Some (Z.of_nat w - Z.of_nat k)%Z))
       i j image
       (slice h (Some (Z.of_nat i))
          (Some (Z.of_nat h - 2 * Z.of_nat k + Z.of_nat i)%Z))
       (slice w (Some (Z.of_nat j))
          (Some (Z.of_nat w - 2 * Z.of_nat k + Z.of_nat j)%Z))).
Proof.
  intros h w k Hh Hw Hi Hj (P & -> & D0 & D1 & D2 & D3 & D4 & G).
  cbn [bind].
  rewrite !slice_dst, !slice_src by assumption.
  unfold assign_patch, broadcastable. cbn [fst snd].
  rewrite D2, !Nat.eqb_refl. cbn [orb andb].
  eexists. split; [reflexivity|]. cbn [a5_d0 a5_d1 a5_d2 a5_d3 a5_d4 get5].
  repeat split; try assumption.
  intros r s ch a b Hch.
  rewrite in_slice_interior by assumption.
  rewrite G by exact Hch. fold h w k.
  destruct (in_interior h w k r s) eqn:Hin; cbn [andb]; [|reflexivity].
  apply in_interior_true in Hin. destruct Hin as (R1 & R2 & S1 & S2).
  destruct (Nat.eqb_spec a i) as [->|Ha]; cbn [andb].
  2:{ rewrite orb_false_r. reflexivity. }
  destruct (Nat.eqb_spec b j) as [->|Hb].
  2:{ rewrite orb_false_r. reflexivity. }
  rewrite orb_true_r.
  unfold src_index. cbn [fst snd].
  f_equal.
  - destruct (Nat.eqb_spec (h - 2 * k) 1); lia.
  - destruct (Nat.eqb_spec (w - 2 * k) 1); lia.
  - destruct (Nat.eqb_spec (d2 image) 1); lia.
Qed.

Lemma half_window (n : nat) : (n <= 2 * (n / 2) + 1)%nat.
Proof.
  pose proof (Nat.div_mod_eq n 2) as E.
  pose proof (Nat.mod_upper_bound n 2) as B. lia.
Qed.

(** When the image is at least 2k high and wide the loop succeeds and fills
    every window offset. *)
Lemma fill_patches_ok (image : array3) (n : nat) :
  (2 * (n / 2) <= d0 image)%nat -> (2 * (n / 2) <= d1 image)%nat ->
  filled image n (fun a b => (a <? n)%nat && (b <? n)%nat)
    (fill_patches image n).
Proof.
  intros Hh Hw. pose proof (half_window n) as Hn.
  unfold fill_patches.
  apply filled_ext with (W := fun a b => (a <? n)%nat && (b <? n)%nat);
    [reflexivity|].
  apply (for_range_ind
           (fun i st => filled image n (fun a b => (a <? i)%nat && (b <? n)%nat) st)).
  - exists (zeros5 (d0 image) (d1 image) (d2 image) n n).
    repeat split. intros r s ch a b _. cbn [get5 zeros5].
    rewrite andb_false_r. reflexivity.
  - intros i st Hi Hst.
    apply filled_ext
      with (W := fun a b => (a <? i)%nat && (b <? n)%nat
                            || (a =? i)%nat && (b <? n)%nat).
    { intros a b. apply eq_iff_eq_true.
      rewrite orb_true_iff, !andb_true_iff, !Nat.ltb_lt, Nat.eqb_eq. lia. }
    apply (for_range_ind
             (fun j st => filled image n
                (fun a b => (a <? i)%nat && (b <? n)%nat
                            || (a =? i)%nat && (b <? j)%nat) st)).
    + apply filled_ext with (2 := Hst).
      intros a b. rewrite andb_false_r, orb_false_r. reflexivity.
    + intros j st' Hj Hst'.
      eapply filled_ext; [|apply filled_step with (5 := Hst'); lia].
      intros a b. cbv beta. apply eq_iff_eq_true.
      rewrite !orb_true_iff, !andb_true_iff, !Nat.ltb_lt, !Nat.eqb_eq. lia.
Qed.

(** ** Reshaping *)

Lemma lt_block (a b n m : nat) :
  (a < n)%nat -> (b < m)%nat -> (a * m + b < n * m)%nat.
Proof. intros Ha Hb. nia. Qed.

Lemma div_block (a n b : nat) :
  (n <> 0)%nat -> ((a * n + b) / n = a + b / n)%nat.
Proof.
  intros Hn. rewrite Nat.add_comm, Nat.div_add by exact Hn. lia.
Qed.

Lemma mod_block (a n b : nat) : ((a * n + b) mod n = b mod n)%nat.
Proof. rewrite Nat.add_comm, Nat.Div0.mod_add. reflexivity. Qed.

Lemma flat5_ravel (P : array5) (i0 i1 i2 i3 : nat) :
  (i1 < a5_d1 P)%nat -> (i2 < a5_d2 P)%nat -> (i3 < a5_d3 P * a5_d4 P)%nat ->
  flat5 P (((i0 * a5_d1 P + i1) * a5_d2 P + i2) * (a5_d3 P * a5_d4 P) + i3)
  = get5 P i0 i1 i2 (i3 / a5_d4 P) (i3 mod a5_d4 P).
Proof.
  intros H1 H2 H3. unfold flat5.
  set (e1 := a5_d1 P) in *. set (e2 := a5_d2 P) in *.
  set (e3 := a5_d3 P) in *. set (e4 := a5_d4 P) in *.
  assert (N4 : (e4 <> 0)%nat) by (intros Z; rewrite Z in H3; lia).
  assert (N3 : (e3 <> 0)%nat) by (intros Z; rewrite Z in H3; lia).
  set (p := (((i0 * e1 + i1) * e2 + i2) * (e3 * e4) + i3)%nat).
  assert (B3 : (i3 / e4 < e3)%nat)
    by (apply Nat.Div0.div_lt_upper_bound; lia).
  assert (E4 : (p / e4 = ((i0 * e1 + i1) * e2 + i2) * e3 + i3 / e4)%nat).
  { unfold p.
    replace (((i0 * e1 + i1) * e2 + i2) * (e3 * e4))%nat
      with ((((i0 * e1 + i1) * e2 + i2) * e3) * e4)%nat by lia.
    apply div_block, N4. }
  assert (E34 : (p / (e3 * e4) = (i0 * e1 + i1) * e2 + i2)%nat).
  { unfold p. apply unravel_last, H3. }
  assert (E234 : (p / (e2 * e3 * e4) = i0 * e1 + i1)%nat).
  { replace (e2 * e3 * e4)%nat with ((e3 * e4) * e2)%nat by lia.
    rewrite <- Nat.Div0.div_div, E34. apply unravel_last, H2. }
  assert (E1234 : (p / (e1 * e2 * e3 * e4) = i0)%nat).
  { replace (e1 * e2 * e3 * e4)%nat with ((e2 * e3 * e4) * e1)%nat by lia.
    rewrite <- Nat.Div0.div_div, E234. apply unravel_last, H1. }
  rewrite E1234, E234, E34, E4.
  f_equal.
  - apply unravel_last, H1.
  - apply unravel_last, H2.
  - apply unravel_last, B3.
  - unfold p.
    replace (((i0 * e1 + i1) * e2 + i2) * (e3 * e4))%nat
      with ((((i0 * e1 + i1) * e2 + i2) * e3) * e4)%nat by lia.
    apply mod_block.
Qed.

Lemma flat4_ravel (A : array4) (i0 i1 q : nat) :
  (i1 < a4_d1 A)%nat -> (q < a4_d2 A * a4_d3 A)%nat ->
  flat4 A ((i0 * a4_d1 A + i1) * (a4_d2 A * a4_d3 A) + q)
  = get4 A i0 i1 (q / a4_d3 A) (q mod a4_d3 A).
Proof.
  intros H1 H2. unfold flat4.
  set (e1 := a4_d1 A) in *. set (e2 := a4_d2 A) in *. set (e3 := a4_d3 A) in *.
  assert (N3 : (e3 <> 0)%nat) by (intros Z; rewrite Z in H2; lia).
  set (p := ((i0 * e1 + i1) * (e2 * e3) + q)%nat).
  assert (B : (q / e3 < e2)%nat)
    by (apply Nat.Div0.div_lt_upper_bound; lia).
  assert (E3 : (p / e3 = (i0 * e1 + i1) * e2 + q / e3)%nat).
  { unfold p.
    replace ((i0 * e1 + i1) * (e2 * e3))%nat
      with (((i0 * e1 + i1) * e2) * e3)%nat by lia.
    apply div_block, N3. }
  assert (E23 : (p / (e2 * e3) = i0 * e1 + i1)%nat).
  { unfold p. apply unravel_last, H2. }
  assert (E123 : (p / (e1 * e2 * e3) = i0)%nat).
  { replace (e1 * e2 * e3)%nat with ((e2 * e3) * e1)%nat by lia.
    rewrite <- Nat.Div0.div_div, E23. apply unravel_last, H1. }
  rewrite E123, E23, E3.
  f_equal.
  - apply unravel_last, H1.
  - apply unravel_last, B.
  - unfold p.
    replace ((i0 * e1 + i1) * (e2 * e3))%nat
      with (((i0 * e1 + i1) * e2) * e3)%nat by lia.
    apply mod_block.
Qed.

Lemma unknown_dim_ok (known m : nat) :
  (known <> 0)%nat -> unknown_dim (known * m) known = Ok m.
Proof.
  intros H. unfold unknown_dim.
  destruct (Nat.eqb_spec known 0) as [E|_]; [contradiction|].
  rewrite Nat.mul_comm, Nat.Div0.mod_mul, Nat.eqb_refl, Nat.div_mul by exact H.
  reflexivity.
Qed.

Lemma unknown_dim_0 (size : nat) : unknown_dim size 0 = Raise ValueError.
Proof. reflexivity. Qed.

Lemma reshape5_4_ok (P : array5) :
  (a5_d0 P * a5_d1 P * a5_d2 P <> 0)%nat ->
  exists A,
    reshape5_4 P (a5_d0 P) (a5_d1 P) (a5_d2 P) = Ok A /\
    a4_d0 A = a5_d0 P /\ a4_d1 A = a5_d1 P /\ a4_d2 A = a5_d2 P /\
    a4_d3 A = (a5_d3 P * a5_d4 P)%nat /\
    forall i0 i1 i2 i3,
      (i1 < a5_d1 P)%nat -> (i2 < a5_d2 P)%nat -> (i3 < a5_d3 P * a5_d4 P)%nat ->
      get4 A i0 i1 i2 i3 = get5 P i0 i1 i2 (i3 / a5_d4 P) (i3 mod a5_d4 P).
Proof.
  intros H. unfold reshape5_4.
  replace (size5 P)
    with ((a5_d0 P * a5_d1 P * a5_d2 P) * (a5_d3 P * a5_d4 P))%nat
    by (unfold size5; lia).
  rewrite unknown_dim_ok by exact H. cbn [bind].
  eexists. split; [reflexivity|]. cbn [a4_d0 a4_d1 a4_d2 a4_d3 get4].
  repeat split.
  intros i0 i1 i2 i3 H1 H2 H3. apply flat5_ravel; assumption.
Qed.

Lemma reshape4_3_ok (A : array4) :
  (a4_d0 A * a4_d1 A <> 0)%nat ->
  exists B,
    reshape4_3 A (a4_d0 A) (a4_d1 A) = Ok B /\
    d0 B = a4_d0 A /\ d1 B = a4_d1 A /\ d2 B = (a4_d2 A * a4_d3 A)%nat /\
    forall i0 i1 q,
      (i1 < a4_d1 A)%nat -> (q < a4_d2 A * a4_d3 A)%nat ->
      get3 B i0 i1 q = get4 A i0 i1 (q / a4_d3 A) (q mod a4_d3 A).
Proof.
  intros H. unfold reshape4_3.
  replace (size4 A) with ((a4_d0 A * a4_d1 A) * (a4_d2 A * a4_d3 A))%nat
    by (unfold size4; lia).
  rewrite unknown_dim_ok by exact H. cbn [bind].
  eexists. split; [reflexivity|]. cbn [d0 d1 d2 get3].
  repeat split.
  intros i0 i1 q H1 H2. apply flat4_ravel; assumption.
Qed.

(** ** The stages of the patch normalizer *)

Lemma is_image_sizes (image : array3) :
  is_image image ->
  (d0 image * d1 image * d2 image <> 0)%nat /\ (d0 image * d1 image <> 0)%nat.
Proof. intros (H0 & H1 & H2). split; nia. Qed.

(** The windows as a (h, w, c, n*n) array. *)
Lemma window_blocks_ok (image : array3) (n : nat) :
  is_image image ->
  (2 * (n / 2) <= d0 image)%nat -> (2 * (n / 2) <= d1 image)%nat ->
  exists A,
    (normalized <- fill_patches image n ;;
     reshape5_4 normalized (d0 image) (d1 image) (d2 image)) = Ok A /\
    a4_d0 A = d0 image /\ a4_d1 A = d1 image /\ a4_d2 A = d2 image /\
    a4_d3 A = (n * n)%nat /\
    forall r s ch m,
      (s < d1 image)%nat -> (ch < d2 image)%nat -> (m < n * n)%nat ->
      get4 A r s ch m = window_value image n r s ch (m / n) (m mod n).
Proof.
  intros Him Hh Hw.
  destruct (fill_patches_ok image n Hh Hw)
    as (P & -> & D0 & D1 & D2 & D3 & D4 & G).
  cbn [bind].
  destruct (reshape5_4_ok P) as (A & EA & A0 & A1 & A2 & A3 & GA).
  { rewrite D0, D1, D2. apply is_image_sizes, Him. }
  rewrite D0, D1, D2 in EA.
  exists A. split; [exact EA|].
  repeat split; try congruence.
  intros r s ch m Hs Hch Hm.
  rewrite GA by (rewrite ?D1, ?D2, ?D3, ?D4; assumption).
  rewrite D4, G by exact Hch. reflexivity.
Qed.

Lemma raw_patches_ok (image : array3) (n : nat) :
  is_image image ->
  (2 * (n / 2) <= d0 image)%nat -> (2 * (n / 2) <= d1 image)%nat ->
  exists raw,
    raw_patches image n = Ok raw /\
    d0 raw = d0 image /\ d1 raw = d1 image /\ d2 raw = (d2 image * (n * n))%nat /\
    forall r s q,
      (s < d1 image)%nat -> (q < d2 image * (n * n))%nat ->
      get3 raw r s q
      = window_value image n r s (q / (n * n))
          (q mod (n * n) / n) ((q mod (n * n)) mod n).
Proof.
  intros Him Hh Hw.
  destruct (window_blocks_ok image n Him Hh Hw)
    as (A & EA & A0 & A1 & A2 & A3 & GA).
  unfold raw_patches.
  destruct (fill_patches image n) as [P|e]; [|discriminate EA].
  cbn [bind] in *. rewrite EA. cbn [bind].
  destruct (reshape4_3_ok A) as (B & EB & B0 & B1 & B2 & GB).
  { rewrite A0, A1. apply is_image_sizes, Him. }
  rewrite A0, A1 in EB. exists B. split; [exact EB|].
  repeat split; try congruence.
  intros r s q Hs Hq.
  assert (Hn : (n * n <> 0)%nat) by (intros Z; rewrite Z in Hq; lia).
  rewrite GB by (rewrite ?A1, ?A2, ?A3; assumption).
  rewrite A3. apply GA.
  - exact Hs.
  - apply Nat.Div0.div_lt_upper_bound. lia.
  - apply Nat.mod_upper_bound, Hn.
Qed.

Lemma centered_patches_ok (image : array3) (n : nat) :
  is_image image ->
  (2 * (n / 2) <= d0 image)%nat -> (2 * (n / 2) <= d1 image)%nat ->
  exists cen,
    centered_patches image n = Ok cen /\
    d0 cen = d0 image /\ d1 cen = d1 image /\ d2 cen = (d2 image * (n * n))%nat /\
    forall r s q,
      (s < d1 image)%nat -> (q < d2 image * (n * n))%nat ->
      get3 cen r s q
      = window_value image n r s (q / (n * n))
          (q mod (n * n) / n) ((q mod (n * n)) mod n)
        - sum_n (n * n)
            (fun m => window_value image n r s (q / (n * n)) (m / n) (m mod n))
          / INR (n * n).
Proof.
  intros Him Hh Hw.
  destruct (window_blocks_ok image n Him Hh Hw)
    as (A & EA & A0 & A1 & A2 & A3 & GA).
  unfold centered_patches.
  destruct (fill_patches image n) as [P|e]; [|discriminate EA].
  cbn [bind] in *. rewrite EA. cbn [bind].
  destruct (reshape4_3_ok (sub4 A (mean_axis3 A))) as (B & EB & B0 & B1 & B2 & GB).
  { cbn [sub4 a4_d0 a4_d1]. rewrite A0, A1. apply is_image_sizes, Him. }
  cbn [sub4 a4_d0 a4_d1 a4_d2 a4_d3] in EB, B0, B1, B2, GB.
  rewrite A0, A1 in EB. exists B. split; [exact EB|].
  repeat split; try congruence.
  intros r s q Hs Hq.
  assert (Hn : (n * n <> 0)%nat) by (intros Z; rewrite Z in Hq; lia).
  assert (Hch : (q / (n * n) < d2 image)%nat)
    by (apply Nat.Div0.div_lt_upper_bound; lia).
  rewrite GB by (rewrite ?A1, ?A2, ?A3; assumption).
  unfold sub4, mean_axis3. cbn [get4 a4_d3]. rewrite A3.
  rewrite GA by (try assumption; apply Nat.mod_upper_bound, Hn).
  f_equal. f_equal.
  apply sum_n_ext. intros m Hm. apply GA; assumption.
Qed.

Lemma preprocess_via_centered (image : array3) (n : nat) :
  preprocess_ncc_impl image n
  = (cen <- centered_patches image n ;; Ok (normalize_patches cen (n / 2))).
Proof.
  unfold preprocess_ncc_impl, preprocess_operands, centered_patches.
  destruct (fill_patches image n) as [P|e]; [|reflexivity].
  cbn [bind].
  destruct (reshape5_4 P (d0 image) (d1 image) (d2 image)) as [A|e];
    [|reflexivity].
  cbn [bind].
  destruct (reshape4_3 (sub4 A (mean_axis3 A)) (d0 image) (d1 image));
    reflexivity.
Qed.

(** Entries of the normalized output in terms of the centered vectors. *)
Lemma normalize_patches_get (cen : array3) (k r s q : nat) :
  get3 (normalize_patches cen k) r s q
  = get3 cen r s q
    * b2r (getm (patch_mask (assign_where_eq3 (norm_axis2 cen) 0 1) k) r s O)
    / get3 (assign_where_eq3 (norm_axis2 cen) 0 1) r s O.
Proof. reflexivity. Qed.

(** The mask is cleared on the whole k-margin (and everywhere when k = 0). *)
Lemma patch_mask_margin (norm : array3) (k r s i : nat) :
  (r < d0 norm)%nat -> (s < d1 norm)%nat ->
  (r < k)%nat \/ (d0 norm <= r + k)%nat \/ (s < k)%nat \/ (d1 norm <= s + k)%nat
  \/ k = O ->
  getm (patch_mask norm k) r s i = false.
Proof.
  intros Hr Hs Hm. unfold patch_mask, assign_cols, assign_rows. cbn [getm m_d0 m_d1].
  rewrite (in_slice_head (d0 norm) k r Hr), (in_slice_tail (d0 norm) k r Hr).
  rewrite (in_slice_head (d1 norm) k s Hs), (in_slice_tail (d1 norm) k s Hs).
  destruct (Nat.leb_spec (d1 norm) (s + k)); destruct (Nat.eqb_spec k 0);
    cbn [orb]; try reflexivity.
  destruct (Nat.ltb_spec s k); try reflexivity.
  destruct (Nat.leb_spec (d0 norm) (r + k)); try reflexivity.
  destruct (Nat.ltb_spec r k); try reflexivity.
  lia.
Qed.

(** Inside the margin the mask is the norm test. *)
Lemma patch_mask_interior (norm : array3) (k r s i : nat) :
  (0 < k)%nat -> interior (d0 norm) (d1 norm) k r s ->
  getm (patch_mask norm k) r s i = Rgeb (get3 norm r s i) eps.
Proof.
  intros Hk (R1 & R2 & S1 & S2).
  unfold patch_mask, assign_cols, assign_rows. cbn [getm m_d0 m_d1].
  rewrite (in_slice_head (d0 norm) k r), (in_slice_tail (d0 norm) k r) by lia.
  rewrite (in_slice_head (d1 norm) k s), (in_slice_tail (d1 norm) k s) by lia.
  destruct (Nat.leb_spec (d1 norm) (s + k)); [lia|].
  destruct (Nat.eqb_spec k 0); [lia|]. cbn [orb].
  destruct (Nat.ltb_spec s k); [lia|].
  destruct (Nat.leb_spec (d0 norm) (r + k)); [lia|].
  destruct (Nat.ltb_spec r k); [lia|].
  reflexivity.
Qed.

(** ** Boundary zeroing *)

Lemma odd_half (k : nat) : ((2 * k + 1) / 2 = k)%nat.
Proof. symmetry. apply (Nat.div_unique _ _ _ 1); lia. Qed.

(** Where the copy loop succeeds, every pixel of the k-margin (every pixel
    at all when k = 0) gets the zero vector. *)
Lemma preprocess_margin_zero (image : array3) (n r s : nat) :
  is_image image ->
  (2 * (n / 2) <= d0 image)%nat -> (2 * (n / 2) <= d1 image)%nat ->
  (r < d0 image)%nat -> (s < d1 image)%nat ->
  (r < n / 2)%nat \/ (d0 image <= r + n / 2)%nat \/
  (s < n / 2)%nat \/ (d1 image <= s + n / 2)%nat \/ (n / 2)%nat = O ->
  exists out,
    preprocess_ncc_impl image n = Ok out /\
    d0 out = d0 image /\ d1 out = d1 image /\ d2 out = (d2 image * (n * n))%nat /\
    forall q, get3 out r s q = 0.
Proof.
  intros Him Hh Hw Hr Hs Hm.
  destruct (centered_patches_ok image n Him Hh Hw) as (cen & E & C0 & C1 & C2 & _).
  rewrite preprocess_via_centered, E. cbn [bind].
  eexists. split; [reflexivity|].
  split; [exact C0|]. split; [exact C1|]. split; [exact C2|].
  intros q. rewrite normalize_patches_get.
  rewrite patch_mask_margin.
  - cbn [b2r]. unfold Rdiv. ring.
  - cbn [d0 assign_where_eq3 norm_axis2]. lia.
  - cbn [d1 assign_where_eq3 norm_axis2]. lia.
  - cbn [d0 d1 assign_where_eq3 norm_axis2]. rewrite C0, C1. exact Hm.
Qed.

Lemma for_range_raise {A : Type} (n : nat)
    (body : nat -> result A -> result A) (e : exn) :
  (forall i, body i (Raise e) = Raise e) ->
  for_range n body (Raise e) = Raise e.
Proof.
  intros H. induction n as [|n IH]; [reflexivity|].
  rewrite for_range_S, IH. apply H.
Qed.

Lemma for_range_raise_first {A : Type} (n : nat)
    (body : nat -> result A -> result A) (s : result A) (e : exn) :
  (0 < n)%nat ->
  body O s = Raise e ->
  (forall i, body i (Raise e) = Raise e) ->
  for_range n body s = Raise e.
Proof.
  intros Hn H0 H. induction n as [|n IH]; [lia|].
  rewrite for_range_S. destruct n as [|n].
  - exact H0.
  - rewrite IH by lia. apply H.
Qed.

(** An image whose height lies strictly between k and 2k makes the first
    slice assignment fail: the source slice [0 : h-2k] has a negative stop,
    which Python counts from the end, so it has 2(h-k) rows while the
    destination slice [k : h-k] has none. *)
Lemma fill_patches_raises (image : array3) (n : nat) :
  (0 < n)%nat ->
  (n / 2 < d0 image)%nat -> (d0 image < 2 * (n / 2))%nat ->
  fill_patches image n = Raise ValueError.
Proof.
  intros Hn H1 H2. unfold fill_patches.
  apply for_range_raise_first; [exact Hn| |].
  - apply for_range_raise_first; [exact Hn| |].
    + cbn [bind]. unfold assign_patch.
      assert (E1 : snd (slice (d0 image) (Some (Z.of_nat (n / 2)))
                         (Some (Z.of_nat (d0 image) - Z.of_nat (n / 2))%Z)) = O).
      { unfold slice. cbn [snd]. rewrite !adjust_index_nonneg by lia. lia. }
      assert (E2 : snd (slice (d0 image) (Some (Z.of_nat 0))
                         (Some (Z.of_nat (d0 image) - 2 * Z.of_nat (n / 2)
                                + Z.of_nat 0)%Z))
                   = (2 * (d0 image - n / 2))%nat).
      { unfold slice. cbn [snd].
        rewrite (adjust_index_nonneg _ (Z.of_nat 0)) by lia.
        rewrite adjust_index_neg by lia. lia. }
      rewrite E1, E2. unfold broadcastable at 1.
      destruct (Nat.eqb_spec (2 * (d0 image - n / 2)) 0); [lia|].
      destruct (Nat.eqb_spec (2 * (d0 image - n / 2)) 1); [lia|].
      reflexivity.
    + reflexivity.
  - intros i. apply for_range_raise. reflexivity.
Qed.

Lemma preprocess_raises_on_short_image (image : array3) (n : nat) :
  (0 < n)%nat ->
  (n / 2 < d0 image)%nat -> (d0 image < 2 * (n / 2))%nat ->
  preprocess_ncc_impl image n = Raise ValueError.
Proof.
  intros Hn H1 H2. unfold preprocess_ncc_impl, preprocess_operands.
  rewrite fill_patches_raises by assumption. reflexivity.
Qed.

(** C3 fails on the code: for every 3 x 3 single-channel image and window
    size 5 (k = 2), where every pixel lies in the k-margin,
    [preprocess_ncc_impl] raises [ValueError] instead of returning the
    all-zero field. *)
Theorem preprocess_3x3_window_5_raises (pix : nat -> nat -> nat -> R) :
  preprocess_ncc_impl (image_3x3 pix) 5 = Raise ValueError.
Proof.
  apply preprocess_raises_on_short_image; cbn; lia.
Qed.

(** ** Flattening order *)

Lemma window_value_interior (image : array3) (n k r s ch a b : nat) :
  (n / 2 = k)%nat ->
  interior (d0 image) (d1 image) k r s ->
  (a < n)%nat -> (b < n)%nat ->
  window_value image n r s ch a b
  = get3 image (r - k + a) (s - k + b) ch.
Proof.
  intros Hk Hin Ha Hb. unfold window_value. rewrite Hk.
  apply in_interior_true in Hin. rewrite Hin.
  destruct (Nat.ltb_spec a n); [|lia].
  destruct (Nat.ltb_spec b n); [|lia].
  reflexivity.
Qed.

Lemma unravel_block (n ch i j : nat) :
  (i < n)%nat -> (j < n)%nat ->
  let q := (ch * (n * n) + i * n + j)%nat in
  ((q / (n * n) = ch) /\ (q mod (n * n) / n = i) /\ ((q mod (n * n)) mod n = j))%nat.
Proof.
  intros Hi Hj q.
  assert (Hm : (i * n + j < n * n)%nat) by (apply lt_block; assumption).
  destruct (unravel_last ch (n * n) (i * n + j) Hm) as [E1 E2].
  destruct (unravel_last i n j Hj) as [E3 E4].
  unfold q. rewrite <- Nat.add_assoc, E1, E2, E3, E4. auto.
Qed.

(** C4: at an interior pixel (r, s) the raw patch vector holds, at flat index
    ch * n^2 + i * n + j, the image value at row r-k+i, column s-k+j, channel
    ch; the centered vector is obtained from it by subtracting the mean of
    its channel block, and the output is the normalization of the centered
    vector. *)
Theorem raw_patch_layout (image : array3) (k r s ch i j : nat) :
  let n := (2 * k + 1)%nat in
  interior (d0 image) (d1 image) k r s ->
  (ch < d2 image)%nat -> (i < n)%nat -> (j < n)%nat ->
  exists raw cen,
    raw_patches image n = Ok raw /\
    d2 raw = (d2 image * n ^ 2)%nat /\
    get3 raw r s (ch * n ^ 2 + i * n + j) = get3 image (r - k + i) (s - k + j) ch /\
    centered_patches image n = Ok cen /\
    get3 cen r s (ch * n ^ 2 + i * n + j)
    = get3 raw r s (ch * n ^ 2 + i * n + j)
      - sum_n (n ^ 2) (fun m => get3 raw r s (ch * n ^ 2 + m)) / INR (n ^ 2) /\
    preprocess_ncc_impl image n = Ok (normalize_patches cen k).
Proof.
  intros n Hin Hch Hi Hj.
  assert (Him : is_image image).
  { destruct Hin as (R1 & R2 & S1 & S2). unfold is_image. lia. }
  assert (Hk : (n / 2 = k)%nat) by apply odd_half.
  assert (Hh : (2 * (n / 2) <= d0 image)%nat)
    by (rewrite Hk; destruct Hin as (R1 & R2 & S1 & S2); lia).
  assert (Hw : (2 * (n / 2) <= d1 image)%nat)
    by (rewrite Hk; destruct Hin as (R1 & R2 & S1 & S2); lia).
  assert (Hs : (s < d1 image)%nat) by (destruct Hin as (R1 & R2 & S1 & S2); lia).
  destruct (raw_patches_ok image n Him Hh Hw) as (raw & Er & _ & _ & R2 & Gr).
  destruct (centered_patches_ok image n Him Hh Hw) as (cen & Ec & _ & _ & _ & Gc).
  exists raw, cen.
  rewrite Nat.pow_2_r.
  assert (Hblock : forall a b, (a < n)%nat -> (b < n)%nat ->
            get3 raw r s (ch * (n * n) + a * n + b)
            = get3 image (r - k + a) (s - k + b) ch).
  { intros a b Ha Hb.
    destruct (unravel_block n ch a b Ha Hb) as (E1 & E2 & E3).
    rewrite Gr.
    - rewrite E1, E2, E3. apply window_value_interior; assumption.
    - exact Hs.
    - assert ((a * n + b < n * n)%nat) by (apply lt_block; assumption). nia. }
  split; [exact Er|]. split; [exact R2|]. split; [apply Hblock; assumption|].
  split; [exact Ec|]. split.
  - destruct (unravel_block n ch i j Hi Hj) as (E1 & E2 & E3).
    rewrite Gc.
    2: exact Hs.
    2:{ assert ((i * n + j < n * n)%nat) by (apply lt_block; assumption). nia. }
    rewrite E1, E2, E3.
    rewrite Hblock by assumption.
    rewrite (window_value_interior image n k) by assumption.
    f_equal. f_equal. apply sum_n_ext. intros m Hm.
    assert (Hn0 : (n <> 0)%nat) by (unfold n; lia).
    assert (Ha : (m / n < n)%nat) by (apply Nat.Div0.div_lt_upper_bound; lia).
    assert (Hb : (m mod n < n)%nat) by (apply Nat.mod_upper_bound, Hn0).
    rewrite (window_value_interior image n k) by assumption.
    rewrite <- (Hblock (m / n)%nat (m mod n)%nat) by assumption.
    f_equal.
    pose proof (Nat.div_mod_eq m n). lia.
  - rewrite preprocess_via_centered, Ec, Hk. reflexivity.
Qed.

(** ** The operands of the final division *)

Lemma eps_pos : 0 < eps.
Proof. unfold eps. lra. Qed.



(** ** Window size 1 *)


(** ** Matrix inverses *)

Ltac expand_det :=
  cbv [det adj minor skip sum_n Nat.ltb Nat.leb Nat.eqb Nat.add Nat.sub pow].

Lemma mul_adj_3 (A : matrix) (i k : nat) :
  (i < 3)%nat -> (k < 3)%nat ->
  sum_n 3 (fun j => A i j * adj 3 A j k) = if (i =? k)%nat then det 3 A else 0.
Proof.
  intros Hi Hk.
  destruct i as [|[|[|i]]]; [| | |lia];
  (destruct k as [|[|[|k]]]; [| | |lia]); expand_det; ring.
Qed.

Lemma mul_adj_4 (A : matrix) (i k : nat) :
  (i < 4)%nat -> (k < 4)%nat ->
  sum_n 4 (fun j => A i j * adj 4 A j k) = if (i =? k)%nat then det 4 A else 0.
Proof.
  intros Hi Hk.
  destruct i as [|[|[|[|i]]]]; [| | | |lia];
  (destruct k as [|[|[|[|k]]]]; [| | | |lia]); expand_det; ring.
Qed.

Lemma inv_ok (n : nat) (A : matrix) :
  det n A <> 0 -> inv n A = Ok (fun i j => adj n A i j / det n A).
Proof. intros H. unfold inv. rewrite Reqb_false by exact H. reflexivity. Qed.

Lemma inv_singular (n : nat) (A : matrix) :
  det n A = 0 -> inv n A = Raise LinAlgError.
Proof. intros H. unfold inv. rewrite Reqb_true by exact H. reflexivity. Qed.

Lemma dot_ext (n : nat) (A : matrix) (v v' : vector) (i : nat) :
  (forall j, (j < n)%nat -> v j = v' j) -> dot n A v i = dot n A v' i.
Proof.
  intros E. unfold dot. apply sum_n_ext. intros j Hj. rewrite E by exact Hj.
  reflexivity.
Qed.

(** A (A^-1 v) = v, for the sizes 3 and 4. *)
Lemma dot_inv_3 (A : matrix) (v : vector) (i : nat) :
  det 3 A <> 0 -> (i < 3)%nat ->
  dot 3 A (dot 3 (fun i j => adj 3 A i j / det 3 A) v) i = v i.
Proof.
  intros HD Hi.
  transitivity
    (sum_n 3 (fun k => sum_n 3 (fun j => A i j * adj 3 A j k) * v k) / det 3 A).
  { unfold dot. cbn [sum_n]. field. exact HD. }
  rewrite (sum_n_ext 3 _ (fun k => (if (i =? k)%nat then det 3 A else 0) * v k)).
  2:{ intros k Hk. rewrite mul_adj_3 by assumption. reflexivity. }
  destruct i as [|[|[|i]]]; [| | |lia]; cbn [sum_n Nat.eqb]; field; exact HD.
Qed.

Lemma dot_inv_4 (A : matrix) (v : vector) (i : nat) :
  det 4 A <> 0 -> (i < 4)%nat ->
  dot 4 A (dot 4 (fun i j => adj 4 A i j / det 4 A) v) i = v i.
Proof.
  intros HD Hi.
  transitivity
    (sum_n 4 (fun k => sum_n 4 (fun j => A i j * adj 4 A j k) * v k) / det 4 A).
  { unfold dot. cbn [sum_n]. field. exact HD. }
  rewrite (sum_n_ext 4 _ (fun k => (if (i =? k)%nat then det 4 A else 0) * v k)).
  2:{ intros k Hk. rewrite mul_adj_4 by assumption. reflexivity. }
  destruct i as [|[|[|[|i]]]]; [| | | |lia]; cbn [sum_n Nat.eqb]; field; exact HD.
Qed.

(** ** The homogeneous extension of Rt *)

Lemma extend_Rt_top (Rt : matrix) (i j : nat) :
  (i < 3)%nat -> extend_Rt Rt i j = Rt i j.
Proof.
  intros Hi. unfold extend_Rt, mset, pad_bottom.
  destruct (Nat.eqb_spec i 3); [lia|]. cbn [andb].
  destruct (Nat.ltb_spec i 3); [reflexivity | lia].
Qed.

Lemma extend_Rt_bottom (Rt : matrix) (j : nat) :
  extend_Rt Rt 3%nat j = if (j =? 3)%nat then 1 else 0.
Proof.
  unfold extend_Rt, mset, pad_bottom. cbn [Nat.eqb andb Nat.ltb Nat.leb].
  destruct (j =? 3)%nat; reflexivity.
Qed.

(** The bottom row of the adjugate of an affine matrix is (0, 0, 0, det). *)
Lemma adj_extend_Rt_bottom (Rt : matrix) (j : nat) :
  (j < 4)%nat ->
  adj 4 (extend_Rt Rt) 3%nat j
  = if (j =? 3)%nat then det 4 (extend_Rt Rt) else 0.
Proof.
  intros Hj.
  destruct j as [|[|[|[|j]]]]; [| | | |lia];
    expand_det; cbv [extend_Rt mset pad_bottom Nat.eqb Nat.ltb Nat.leb andb]; ring.
Qed.

Lemma inv_extend_Rt_bottom (Rt : matrix) (j : nat) :
  det 4 (extend_Rt Rt) <> 0 -> (j < 4)%nat ->
  adj 4 (extend_Rt Rt) 3%nat j / det 4 (extend_Rt Rt)
  = if (j =? 3)%nat then 1 else 0.
Proof.
  intros HD Hj. rewrite adj_extend_Rt_bottom by exact Hj.
  destruct (j =? 3)%nat; field; exact HD.
Qed.

(** ** Corner unprojection *)

Lemma homogeneous_component_aux (K_inv Rt : matrix) (px py : R) :
  det 4 (extend_Rt Rt) <> 0 ->
  let Rt_inv := fun i j => adj 4 (extend_Rt Rt) i j / det 4 (extend_Rt Rt) in
  unproject_homogeneous K_inv Rt_inv px py 3%nat = 1 /\
  forall c,
    vdiv (unproject_homogeneous K_inv Rt_inv px py)
         (unproject_homogeneous K_inv Rt_inv px py 3%nat) c
    = unproject_homogeneous K_inv Rt_inv px py c.
Proof.
  intros HD Rt_inv.
  assert (Hw : unproject_homogeneous K_inv Rt_inv px py 3%nat = 1).
  { unfold unproject_homogeneous, dot at 1. cbn [sum_n]. unfold Rt_inv.
    rewrite !inv_extend_Rt_bottom by (exact HD || lia).
    unfold vset. cbn [Nat.eqb]. ring. }
  split; [exact Hw|].
  intros c. unfold vdiv. rewrite Hw. field.
Qed.

(** C9: when the extension of Rt is invertible, the bottom row of its
    inverse is (0, 0, 0, 1); the homogeneous component of every unprojected
    corner is therefore exactly 1, and the perspective divide changes
    nothing. *)
Theorem unproject_homogeneous_component_1 (K_inv Rt : matrix) (px py : R) :
  det 4 (extend_Rt Rt) <> 0 ->
  exists Rt_inv,
    inv 4 (extend_Rt Rt) = Ok Rt_inv /\
    (forall j, (j < 4)%nat -> Rt_inv 3%nat j = if (j =? 3)%nat then 1 else 0) /\
    unproject_homogeneous K_inv Rt_inv px py 3%nat = 1 /\
    forall c,
      vdiv (unproject_homogeneous K_inv Rt_inv px py)
           (unproject_homogeneous K_inv Rt_inv px py 3%nat) c
      = unproject_homogeneous K_inv Rt_inv px py c.
Proof.
  intros HD. rewrite inv_ok by exact HD.
  eexists. split; [reflexivity|].
  split.
  - intros j Hj. apply inv_extend_Rt_bottom; assumption.
  - apply homogeneous_component_aux, HD.
Qed.

(** ** Projection *)

(** [project_impl] stores the first two components of [project_point] at
    every cell of the grid. *)
Lemma project_impl_get (K Rt : matrix) (points : array3) (h w c : nat) :
  (h < d0 points)%nat -> (w < d1 points)%nat -> (c < 2)%nat ->
  get3 (project_impl K Rt points) h w c = project_point K Rt points h w c.
Proof.
  intros Hh Hw Hc. unfold project_impl.
  set (pp := project_point K Rt points).
  assert (G : forall r s c',
            get3 (for_range (d0 points) (fun h out_img =>
                    for_range (d1 points) (fun w out_img =>
                      set3 (set3 out_img h w 0 (pp h w 0%nat)) h w 1 (pp h w 1%nat))
                      out_img)
                    (zeros3 (d0 points) (d1 points) 2)) r s c'
            = if (r <? d0 points)%nat && (s <? d1 points)%nat && (c' <? 2)%nat
              then pp r s c' else 0).
  { apply (for_range_ind
             (fun i st => forall r s c',
                get3 st r s c'
                = if (r <? i)%nat && (s <? d1 points)%nat && (c' <? 2)%nat
                  then pp r s c' else 0)).
    - intros r s c'. reflexivity.
    - intros i st Hi Hst.
      assert (Hin : forall r s c',
                get3 (for_range (d1 points) (fun w out_img =>
                        set3 (set3 out_img i w 0 (pp i w 0%nat)) i w 1 (pp i w 1%nat))
                        st) r s c'
                = if ((r <? i)%nat && (s <? d1 points)%nat
                      || (r =? i)%nat && (s <? d1 points)%nat) && (c' <? 2)%nat
                  then pp r s c' else 0).
      { apply (for_range_ind
                 (fun j st' => forall r s c',
                    get3 st' r s c'
                    = if ((r <? i)%nat && (s <? d1 points)%nat
                          || (r =? i)%nat && (s <? j)%nat) && (c' <? 2)%nat
                      then pp r s c' else 0)).
        - intros r s c'. rewrite Hst, andb_false_r, orb_false_r. reflexivity.
        - intros j st' Hj Hst' r s c'. cbn [get3 set3]. rewrite Hst'.
          destruct (Nat.eqb_spec r i) as [->|Hr]; cbn [andb].
          2:{ rewrite ?andb_false_l, ?orb_false_r. reflexivity. }
          destruct (Nat.ltb_spec i i); [lia|]. cbn [andb orb].
          destruct (Nat.eqb_spec s j) as [->|Hs]; cbn [andb].
          + destruct (Nat.ltb_spec j (S j)); [|lia]. cbn [andb].
            destruct (Nat.ltb_spec j j); [lia|]. cbn [andb].
            destruct c' as [|[|c']]; reflexivity.
          + replace (s <? S j)%nat with (s <? j)%nat.
            2:{ apply eq_iff_eq_true. rewrite !Nat.ltb_lt. lia. }
            reflexivity. }
      intros r s c'. rewrite Hin.
      replace ((r <? i)%nat && (s <? d1 points)%nat
               || (r =? i)%nat && (s <? d1 points)%nat)
        with ((r <? S i)%nat && (s <? d1 points)%nat).
      2:{ apply eq_iff_eq_true.
          rewrite orb_true_iff, !andb_true_iff, !Nat.ltb_lt, Nat.eqb_eq. lia. }
      reflexivity. }
  rewrite G.
  destruct (Nat.ltb_spec h (d0 points)); [|lia].
  destruct (Nat.ltb_spec w (d1 points)); [|lia].
  destruct (Nat.ltb_spec c 2); [|lia].
  reflexivity.
Qed.

Lemma project_point_eq (K Rt : matrix) (points : array3) (h w c : nat) :
  project_point K Rt points h w c
  = dot 3 K (ext_point_of Rt points h w) c
    / dot 3 K (ext_point_of Rt points h w) 2%nat.
Proof. reflexivity. Qed.

(** ** Corner unprojection, cell by cell *)

Lemma corner_cases (i j : nat) :
  (i < 2)%nat -> (j < 2)%nat ->
  (i = 0 /\ j = 0 \/ i = 0 /\ j = 1 \/ i = 1 /\ j = 0 \/ i = 1 /\ j = 1)%nat.
Proof. lia. Qed.

Lemma unproject_corners_get (K Rt : matrix) (width height : Z) (depth : R) :
  det 3 K <> 0 -> det 4 (extend_Rt Rt) <> 0 ->
  exists corners,
    unproject_corners_impl K width height depth Rt = Ok corners /\
    d0 corners = 2%nat /\ d1 corners = 2%nat /\ d2 corners = 3%nat /\
    forall i j c, (i < 2)%nat -> (j < 2)%nat -> (c < 3)%nat ->
      get3 corners i j c
      = unproject_homogeneous
          (mscale (fun i j => adj 3 K i j / det 3 K) depth)
          (fun i j => adj 4 (extend_Rt Rt) i j / det 4 (extend_Rt Rt))
          (corner_x width j) (corner_y height i) c.
Proof.
  intros HK HRt.
  unfold unproject_corners_impl.
  rewrite (inv_ok 4) by exact HRt. rewrite (inv_ok 3) by exact HK.
  cbn [bind].
  eexists. split; [reflexivity|].
  split; [reflexivity|]. split; [reflexivity|]. split; [reflexivity|].
  intros i j c Hi Hj Hc.
  set (Ri := fun i j => adj 4 (extend_Rt Rt) i j / det 4 (extend_Rt Rt)).
  set (Ki := mscale (fun i j => adj 3 K i j / det 3 K) depth).
  assert (Hw : forall px py c',
            vdiv (unproject_homogeneous Ki Ri px py)
                 (unproject_homogeneous Ki Ri px py 3%nat) c'
            = unproject_homogeneous Ki Ri px py c').
  { intros px py c'.
    destruct (homogeneous_component_aux Ki Rt px py HRt) as [_ H].
    apply H. }
  destruct (corner_cases i j Hi Hj) as [[-> ->]|[[-> ->]|[[-> ->]|[-> ->]]]];
    (destruct c as [|[|[|c]]]; [| | |lia]);
    cbn [for_range seq fold_left get3 set3 Nat.eqb andb zeros3
         corner_x corner_y];
    apply Hw.
Qed.

(** ** Round trip *)

(** The homogeneous pixel [px, py, 1]. *)
Lemma dot_scaled_inv_3 (K : matrix) (depth : R) (p : vector) (m : nat) :
  det 3 K <> 0 -> (m < 3)%nat ->
  dot 3 K (dot 3 (mscale (fun i j => adj 3 K i j / det 3 K) depth) p) m
  = depth * p m.
Proof.
  intros HK Hm.
  rewrite <- (dot_inv_3 K (fun k => depth * p k) m HK Hm).
  apply dot_ext. intros j Hj.
  unfold dot, mscale. apply sum_n_ext. intros k Hk. ring.
Qed.

(** Applying Rt to an unprojected corner gives back the camera-space point
    from which it was unprojected. *)
Lemma ext_point_of_unprojected (K_inv Rt : matrix) (corners : array3)
    (px py : R) (i j k : nat) :
  det 4 (extend_Rt Rt) <> 0 ->
  (forall c, (c < 3)%nat ->
     get3 corners i j c
     = unproject_homogeneous K_inv
         (fun i j => adj 4 (extend_Rt Rt) i j / det 4 (extend_Rt Rt)) px py c) ->
  (k < 3)%nat ->
  ext_point_of Rt corners i j k
  = dot 3 K_inv (vset (vset (vset vzeros 0 px) 1 py) 2 1) k.
Proof.
  intros HRt Hc Hk.
  set (Ri := fun i j => adj 4 (extend_Rt Rt) i j / det 4 (extend_Rt Rt)) in *.
  set (p := vset (vset (vset vzeros 0 px) 1 py) 2 1).
  set (q := dot 3 K_inv p).
  set (temp := vset (vset (vset (vset vzeros 0 (q 0%nat)) 1 (q 1%nat)) 2 (q 2%nat)) 3 1).
  assert (Hu : forall c, unproject_homogeneous K_inv Ri px py c = dot 4 Ri temp c)
    by reflexivity.
  destruct (homogeneous_component_aux K_inv Rt px py HRt) as [Hw _].
  fold Ri in Hw.
  transitivity (dot 4 (extend_Rt Rt) (dot 4 Ri temp) k).
  - unfold ext_point_of. unfold dot at 1 2. apply sum_n_ext. intros m Hm.
    rewrite extend_Rt_top by exact Hk. f_equal.
    rewrite <- Hu.
    destruct m as [|[|[|[|m]]]]; [| | | |lia]; unfold vset at 1 2 3 4;
      cbn [Nat.eqb]; rewrite ?Hc by lia; auto.
  - unfold Ri. rewrite dot_inv_4 by (exact HRt || lia).
    destruct k as [|[|[|k]]]; [| | |lia]; reflexivity.
Qed.

Lemma corner_x_eq (width : Z) (j : nat) :
  (j < 2)%nat -> corner_x width j = INR j * IZR (width - 1).
Proof.
  intros Hj. destruct j as [|[|j]]; [| |lia]; cbn [corner_x Nat.eqb INR]; ring.
Qed.

Lemma corner_y_eq (height : Z) (i : nat) :
  (i < 2)%nat -> corner_y height i = INR i * IZR (height - 1).
Proof.
  intros Hi. destruct i as [|[|i]]; [| |lia]; cbn [corner_y Nat.eqb INR]; ring.
Qed.

(** C1: for invertible K and invertible extension of Rt, unprojecting the
    corners succeeds, and projecting the corner stored at grid position
    [i][j] gives back the pixel x = j (w-1), y = i (h-1) whenever the
    camera-space z of that corner is not 0. *)
Theorem project_unproject_roundtrip (K Rt : matrix) (width height : Z)
    (depth : R) (i j : nat) :
  det 3 K <> 0 -> det 4 (extend_Rt Rt) <> 0 ->
  (i < 2)%nat -> (j < 2)%nat ->
  exists corners,
    unproject_corners_impl K width height depth Rt = Ok corners /\
    d0 corners = 2%nat /\ d1 corners = 2%nat /\ d2 corners = 3%nat /\
    (ext_point_of Rt corners i j 2%nat <> 0 ->
     get3 (project_impl K Rt corners) i j 0 = INR j * IZR (width - 1) /\
     get3 (project_impl K Rt corners) i j 1 = INR i * IZR (height - 1)).
Proof.
  intros HK HRt Hi Hj.
  destruct (unproject_corners_get K Rt width height depth HK HRt)
    as (corners & E & D0 & D1 & D2 & G).
  exists corners. split; [exact E|].
  split; [exact D0|]. split; [exact D1|]. split; [exact D2|].
  intros Hz.
  set (Ki := mscale (fun i j => adj 3 K i j / det 3 K) depth) in *.
  set (p := vset (vset (vset vzeros 0 (corner_x width j)) 1 (corner_y height i)) 2 1).
  assert (Hext : forall k, (k < 3)%nat ->
            ext_point_of Rt corners i j k = dot 3 Ki p k).
  { intros k Hk.
    apply ext_point_of_unprojected; [exact HRt| |exact Hk].
    intros c Hc. apply G; assumption. }
  assert (Hint : forall m, (m < 3)%nat ->
            dot 3 K (ext_point_of Rt corners i j) m = depth * p m).
  { intros m Hm.
    rewrite (dot_ext 3 K _ (dot 3 Ki p)) by exact Hext.
    apply dot_scaled_inv_3; assumption. }
  assert (Hdepth : depth <> 0).
  { intros Hd. apply Hz. rewrite Hext by lia.
    unfold dot, Ki, mscale. apply sum_n_zero. intros k Hk. rewrite Hd. ring. }
  rewrite !project_impl_get by lia.
  rewrite !project_point_eq, !Hint by lia.
  rewrite <- corner_x_eq, <- corner_y_eq by assumption.
  unfold p, vset. cbn [Nat.eqb].
  split; field; exact Hdepth.
Qed.

Lemma det_K_example : det 3 K_example = 4.
Proof. expand_det. cbv [K_example]. ring. Qed.

Lemma det_Rt_example : det 4 (extend_Rt Rt_example) = 1.
Proof.
  expand_det. cbv [extend_Rt mset pad_bottom Rt_example Nat.eqb Nat.ltb Nat.leb andb].
  ring.
Qed.

(** At the example calibration the bottom-right corner has camera-space
    depth 5. *)
Lemma ext_z_example (corners : array3) :
  unproject_corners_impl K_example 640 480 5 Rt_example = Ok corners ->
  ext_point_of Rt_example corners 1 1 2%nat = 5.
Proof.
  intros E.
  assert (HK : det 3 K_example <> 0) by (rewrite det_K_example; lra).
  assert (HRt : det 4 (extend_Rt Rt_example) <> 0) by (rewrite det_Rt_example; lra).
  destruct (unproject_corners_get K_example Rt_example 640 480 5 HK HRt)
    as (c' & E' & _ & _ & _ & G).
  rewrite E in E'. injection E' as <-.
  rewrite (ext_point_of_unprojected
             (mscale (fun i j => adj 3 K_example i j / det 3 K_example) 5)
             Rt_example corners (corner_x 640 1) (corner_y 480 1));
    [|exact HRt| |lia].
  2:{ intros c Hc. apply G; lia. }
  unfold dot, mscale. rewrite det_K_example. cbn [sum_n].
  expand_det. cbv [K_example vset vzeros Nat.eqb corner_x corner_y]. field.
Qed.

Lemma project_unproject_roundtrip_witness :
  det 3 K_example <> 0 /\ det 4 (extend_Rt Rt_example) <> 0 /\
  (1 < 2)%nat /\ (1 < 2)%nat /\
  exists corners,
    unproject_corners_impl K_example 640 480 5 Rt_example = Ok corners /\
    ext_point_of Rt_example corners 1 1 2%nat <> 0 /\
    get3 (project_impl K_example Rt_example corners) 1 1 0
    = INR 1 * IZR (640 - 1) /\
    get3 (project_impl K_example Rt_example corners) 1 1 1
    = INR 1 * IZR (480 - 1).
Proof.
  assert (HK : det 3 K_example <> 0) by (rewrite det_K_example; lra).
  assert (HRt : det 4 (extend_Rt Rt_example) <> 0) by (rewrite det_Rt_example; lra).
  assert (H12 : (1 < 2)%nat) by lia.
  split; [exact HK|]. split; [exact HRt|]. split; [exact H12|]. split; [exact H12|].
  destruct (project_unproject_roundtrip K_example Rt_example 640 480 5 1 1
              HK HRt H12 H12) as (corners & E & _ & _ & _ & H).
  assert (Hz : ext_point_of Rt_example corners 1 1 2%nat <> 0)
    by (rewrite (ext_z_example corners E); lra).
  exists corners. split; [exact E|]. split; [exact Hz|]. exact (H Hz).
Defined.

Lemma unproject_homogeneous_component_1_witness :
  det 4 (extend_Rt Rt_example) <> 0 /\
  exists Rt_inv,
    inv 4 (extend_Rt Rt_example) = Ok Rt_inv /\
    (forall j, (j < 4)%nat -> Rt_inv 3%nat j = if (j =? 3)%nat then 1 else 0) /\
    unproject_homogeneous K_example Rt_inv 639 479 3%nat = 1 /\
    forall c,
      vdiv (unproject_homogeneous K_example Rt_inv 639 479)
           (unproject_homogeneous K_example Rt_inv 639 479 3%nat) c
      = unproject_homogeneous K_example Rt_inv 639 479 c.
Proof.
  assert (HRt : det 4 (extend_Rt Rt_example) <> 0) by (rewrite det_Rt_example; lra).
  split; [exact HRt|].
  exact (unproject_homogeneous_component_1 K_example Rt_example 639 479 HRt).
Defined.

(** ** The kernels on a 3 x 3 grey image *)

Lemma grey_3x3_interior : interior (d0 grey_3x3) (d1 grey_3x3) 1 1 1.
Proof. unfold interior, grey_3x3, image_3x3. cbn [d0 d1]. lia. Qed.


Lemma raw_patch_layout_witness :
  interior (d0 grey_3x3) (d1 grey_3x3) 1 1 1 /\
  (0 < d2 grey_3x3)%nat /\ (2 < 2 * 1 + 1)%nat /\ (0 < 2 * 1 + 1)%nat /\
  exists raw cen,
    raw_patches grey_3x3 (2 * 1 + 1) = Ok raw /\
    d2 raw = (d2 grey_3x3 * (2 * 1 + 1) ^ 2)%nat /\
    get3 raw 1 1 (0 * (2 * 1 + 1) ^ 2 + 2 * (2 * 1 + 1) + 0)
    = get3 grey_3x3 (1 - 1 + 2) (1 - 1 + 0) 0 /\
    centered_patches grey_3x3 (2 * 1 + 1) = Ok cen /\
    get3 cen 1 1 (0 * (2 * 1 + 1) ^ 2 + 2 * (2 * 1 + 1) + 0)
    = get3 raw 1 1 (0 * (2 * 1 + 1) ^ 2 + 2 * (2 * 1 + 1) + 0)
      - sum_n ((2 * 1 + 1) ^ 2)
          (fun m => get3 raw 1 1 (0 * (2 * 1 + 1) ^ 2 + m))
        / INR ((2 * 1 + 1) ^ 2) /\
    preprocess_ncc_impl grey_3x3 (2 * 1 + 1) = Ok (normalize_patches cen 1).
Proof.
  assert (Hc : (0 < d2 grey_3x3)%nat) by (cbn [d2 grey_3x3 image_3x3]; lia).
  assert (H2 : (2 < 2 * 1 + 1)%nat) by lia.
  assert (H0 : (0 < 2 * 1 + 1)%nat) by lia.
  split; [exact grey_3x3_interior|]. split; [exact Hc|].
  split; [exact H2|]. split; [exact H0|].
  exact (raw_patch_layout grey_3x3 1 1 1 0 2 0 grey_3x3_interior Hc H2 H0).
Defined.


(** * Further properties of the kernels *)

(** ** Scores of the correlation kernel *)

Lemma sum_n_scal (n : nat) (a : R) (f : nat -> R) :
  sum_n n (fun i => a * f i) = a * sum_n n f.
Proof.
  induction n as [|n IH]; cbn [sum_n]; [ring|]. rewrite IH. ring.
Qed.

(** Cauchy-Schwarz for finite sums. *)
Lemma cauchy_schwarz (n : nat) (f g : nat -> R) :
  sum_n n (fun i => f i * g i) ^ 2
  <= sum_n n (fun i => f i ^ 2) * sum_n n (fun i => g i ^ 2).
Proof.
  induction n as [|n IH]; cbn [sum_n]; [lra|].
  pose proof (sum_n_sq_nonneg n f) as H1.
  pose proof (sum_n_sq_nonneg n g) as H2.
  set (A := sum_n n (fun i => f i * g i)) in *.
  set (S1 := sum_n n (fun i => f i ^ 2)) in *.
  set (S2 := sum_n n (fun i => g i ^ 2)) in *.
  set (a := f n). set (b := g n).
  assert (HY : 0 <= S1 * b ^ 2 + S2 * a ^ 2).
  { pose proof (pow2_ge_0 a). pose proof (pow2_ge_0 b). nra. }
  assert (Hsq : (2 * A * a * b) ^ 2 <= (S1 * b ^ 2 + S2 * a ^ 2) ^ 2).
  { pose proof (pow2_ge_0 (S1 * b ^ 2 - S2 * a ^ 2)) as Hd.
    pose proof (pow2_ge_0 (a * b)) as Hab.
    assert (Hm : 0 <= (a * b) ^ 2 * (S1 * S2 - A ^ 2)) by (apply Rmult_le_pos; lra).
    nra. }
  assert (Hle : 2 * A * a * b <= S1 * b ^ 2 + S2 * a ^ 2).
  { destruct (Rle_dec (2 * A * a * b) (S1 * b ^ 2 + S2 * a ^ 2)) as [Hl|Hg];
      [exact Hl|].
    exfalso. assert (Hlt : S1 * b ^ 2 + S2 * a ^ 2 < 2 * A * a * b) by lra.
    nra. }
  nra.
Qed.

Lemma dot_sq_le_denominator_sq (f1 f2 : array3) (r s : nat) :
  d2 f1 = d2 f2 ->
  dot_at f1 f2 r s ^ 2 <= sqnorm_at f1 r s * sqnorm_at f2 r s.
Proof.
  intros E. unfold dot_at, sqnorm_at. rewrite <- E.
  apply (cauchy_schwarz (d2 f1) (fun q => get3 f1 r s q) (fun q => get3 f2 r s q)).
Qed.

(** X1: on equally shaped fields every score lies in [-1, 1]. *)
Theorem compute_ncc_score_bounded (f1 f2 : array3) :
  same_shape f1 f2 -> (0 < d2 f1)%nat ->
  exists ncc,
    compute_ncc_impl f1 f2 = Ok ncc /\
    forall r s, (r < d0 f1)%nat -> (s < d1 f1)%nat ->
      -1 <= get2 ncc r s <= 1.
Proof.
  intros Hsh HL.
  destruct (compute_ncc_same_shape f1 f2 Hsh HL) as (ncc & E & _ & _ & G).
  exists ncc. split; [exact E|].
  intros r s Hr Hs. rewrite G by exact Hs.
  destruct Hsh as (_ & _ & E2).
  pose proof (dot_sq_le_denominator_sq f1 f2 r s E2) as Hcs.
  pose proof (sqnorm_at_nonneg f1 r s) as H1.
  pose proof (sqnorm_at_nonneg f2 r s) as H2.
  unfold ncc_divisor.
  destruct (Req_dec_T (ncc_denominator f1 f2 r s) 0) as [Hz|Hnz].
  - rewrite Reqb_true by exact Hz.
    rewrite (ncc_denominator_0_dot_0 f1 f2 r s E2 Hz). lra.
  - rewrite Reqb_false by exact Hnz.
    set (D := ncc_denominator f1 f2 r s) in *.
    set (N := dot_at f1 f2 r s) in *.
    assert (HD0 : 0 <= D) by apply sqrt_pos.
    assert (HDpos : 0 < D) by lra.
    assert (HDD : D * D = sqnorm_at f1 r s * sqnorm_at f2 r s).
    { unfold D, ncc_denominator. apply sqrt_sqrt. apply Rmult_le_pos; assumption. }
    assert (HN : N ^ 2 <= D * D) by lra.
    assert (Hup : N <= D) by nra.
    assert (Hlo : - D <= N) by nra.
    split.
    + apply (Rmult_le_reg_r D); [exact HDpos|].
      unfold Rdiv. rewrite Rmult_assoc, Rinv_l by lra. lra.
    + apply (Rmult_le_reg_r D); [exact HDpos|].
      unfold Rdiv. rewrite Rmult_assoc, Rinv_l by lra. lra.
Qed.

Lemma compute_ncc_score_bounded_witness :
  same_shape ones_field ones_field /\ (0 < d2 ones_field)%nat /\
  exists ncc,
    compute_ncc_impl ones_field ones_field = Ok ncc /\
    forall r s, (r < d0 ones_field)%nat -> (s < d1 ones_field)%nat ->
      -1 <= get2 ncc r s <= 1.
Proof.
  assert (Hs : same_shape ones_field ones_field) by (repeat split).
  assert (HL : (0 < d2 ones_field)%nat) by (cbn [d2 ones_field]; lia).
  split; [exact Hs|]. split; [exact HL|].
  exact (compute_ncc_score_bounded ones_field ones_field Hs HL).
Defined.

Lemma dot_at_scale3 (a : R) (f1 f2 : array3) (r s : nat) :
  dot_at (scale3 a f1) f2 r s = a * dot_at f1 f2 r s.
Proof.
  unfold dot_at. cbn [scale3 d2 get3]. rewrite <- sum_n_scal.
  apply sum_n_ext. intros; ring.
Qed.

Lemma sqnorm_at_scale3 (a : R) (f : array3) (r s : nat) :
  sqnorm_at (scale3 a f) r s = a ^ 2 * sqnorm_at f r s.
Proof.
  unfold sqnorm_at. cbn [scale3 d2 get3]. rewrite <- sum_n_scal.
  apply sum_n_ext. intros; ring.
Qed.

Lemma ncc_denominator_scale3 (a : R) (f1 f2 : array3) (r s : nat) :
  ncc_denominator (scale3 a f1) f2 r s = Rabs a * ncc_denominator f1 f2 r s.
Proof.
  unfold ncc_denominator. rewrite sqnorm_at_scale3.
  replace (a ^ 2 * sqnorm_at f1 r s * sqnorm_at f2 r s)
    with (Rsqr a * (sqnorm_at f1 r s * sqnorm_at f2 r s)) by (unfold Rsqr; ring).
  rewrite sqrt_mult.
  - rewrite sqrt_Rsqr_abs. reflexivity.
  - apply Rle_0_sqr.
  - apply Rmult_le_pos; apply sqnorm_at_nonneg.
Qed.

(** X2: the kernel does not assume unit vectors: multiplying the first
    field by a non-zero number [a] multiplies every score by the sign of
    [a]; in particular a positive factor leaves the scores unchanged. *)
Theorem compute_ncc_scale_invariant (a : R) (f1 f2 : array3) :
  same_shape f1 f2 -> (0 < d2 f1)%nat -> a <> 0 ->
  exists ncc ncc',
    compute_ncc_impl f1 f2 = Ok ncc /\
    compute_ncc_impl (scale3 a f1) f2 = Ok ncc' /\
    forall r s, (r < d0 f1)%nat -> (s < d1 f1)%nat ->
      get2 ncc' r s = a / Rabs a * get2 ncc r s /\
      (0 < a -> get2 ncc' r s = get2 ncc r s).
Proof.
  intros Hsh HL Ha.
  assert (Hsh' : same_shape (scale3 a f1) f2) by exact Hsh.
  destruct (compute_ncc_same_shape f1 f2 Hsh HL) as (ncc & E & _ & _ & G).
  destruct (compute_ncc_same_shape (scale3 a f1) f2 Hsh' HL)
    as (ncc' & E' & _ & _ & G').
  exists ncc, ncc'. split; [exact E|]. split; [exact E'|].
  intros r s Hr Hs.
  assert (Habs : Rabs a <> 0) by (apply Rabs_no_R0, Ha).
  assert (Hmain : get2 ncc' r s = a / Rabs a * get2 ncc r s).
  { rewrite G, G' by exact Hs. unfold ncc_divisor.
    rewrite ncc_denominator_scale3, dot_at_scale3.
    destruct (Req_dec_T (ncc_denominator f1 f2 r s) 0) as [Hz|Hnz].
    - rewrite Hz, Rmult_0_r, Reqb_true by reflexivity.
      destruct Hsh as (_ & _ & E2).
      rewrite (ncc_denominator_0_dot_0 f1 f2 r s E2 Hz). field. exact Habs.
    - rewrite (Reqb_false (ncc_denominator f1 f2 r s)) by exact Hnz.
      rewrite Reqb_false.
      + field. split; assumption.
      + intros H0. apply Rmult_integral in H0. tauto. }
  split; [exact Hmain|].
  intros Hpos. rewrite Hmain, Rabs_right by lra. field. exact Ha.
Qed.

Lemma compute_ncc_scale_invariant_witness :
  same_shape ones_field ones_field /\ (0 < d2 ones_field)%nat /\ 3 <> 0 /\
  exists ncc ncc',
    compute_ncc_impl ones_field ones_field = Ok ncc /\
    compute_ncc_impl (scale3 3 ones_field) ones_field = Ok ncc' /\
    forall r s, (r < d0 ones_field)%nat -> (s < d1 ones_field)%nat ->
      get2 ncc' r s = 3 / Rabs 3 * get2 ncc r s /\
      (0 < 3 -> get2 ncc' r s = get2 ncc r s).
Proof.
  assert (Hs : same_shape ones_field ones_field) by (repeat split).
  assert (HL : (0 < d2 ones_field)%nat) by (cbn [d2 ones_field]; lia).
  assert (H3 : 3 <> 0) by lra.
  split; [exact Hs|]. split; [exact HL|]. split; [exact H3|].
  exact (compute_ncc_scale_invariant 3 ones_field ones_field Hs HL H3).
Defined.

(** ** Normalized vectors *)

Lemma Rgeb_true (x y : R) : y <= x -> Rgeb x y = true.
Proof. intros H. unfold Rgeb. destruct (Rge_dec x y); [reflexivity | lra]. Qed.

(** At a pixel inside the margin whose centered vector has norm at least
    eps, the output is the centered vector divided by its norm, and has
    squared norm 1. *)
Lemma normalize_textured (cen : array3) (k r s : nat) :
  (0 < k)%nat -> interior (d0 cen) (d1 cen) k r s ->
  eps <= get3 (norm_axis2 cen) r s O ->
  (forall q, get3 (normalize_patches cen k) r s q
             = get3 cen r s q / get3 (norm_axis2 cen) r s O) /\
  sqnorm_at (normalize_patches cen k) r s = 1.
Proof.
  intros Hk Hin Hge.
  set (N := get3 (norm_axis2 cen) r s O) in *.
  pose proof eps_pos as He.
  assert (HN : N <> 0) by lra.
  assert (Hq : forall q, get3 (normalize_patches cen k) r s q = get3 cen r s q / N).
  { intros q. rewrite normalize_patches_get.
    rewrite patch_mask_interior by assumption.
    cbn [get3 assign_where_eq3]. fold N.
    rewrite Reqb_false by exact HN. rewrite Rgeb_true by exact Hge.
    cbn [b2r]. field. exact HN. }
  split; [exact Hq|].
  unfold sqnorm_at.
  rewrite (sum_n_ext _ _ (fun q => / (N * N) * get3 cen r s q ^ 2)).
  2:{ intros q _. rewrite Hq. field. exact HN. }
  rewrite sum_n_scal.
  assert (HNN : N * N = sum_n (d2 cen) (fun q => get3 cen r s q ^ 2)).
  { unfold N. cbn [get3 norm_axis2]. apply sqrt_sqrt, sum_n_sq_nonneg. }
  change (d2 (normalize_patches cen k)) with (d2 cen).
  rewrite <- HNN. field. exact HN.
Qed.

(** X3: at an interior pixel whose mean-subtracted vector has norm at least
    1e-6 the output vector is that vector divided by its norm, and its
    Euclidean norm is exactly 1. *)
Theorem preprocess_unit_norm (image : array3) (k r s : nat) :
  let n := (2 * k + 1)%nat in
  (0 < k)%nat -> (0 < d2 image)%nat ->
  interior (d0 image) (d1 image) k r s ->
  exists cen out,
    centered_patches image n = Ok cen /\
    preprocess_ncc_impl image n = Ok out /\
    (eps <= get3 (norm_axis2 cen) r s O ->
     (forall q, (q < d2 out)%nat ->
        get3 out r s q = get3 cen r s q / get3 (norm_axis2 cen) r s O) /\
     sqrt (sum_n (d2 out) (fun q => get3 out r s q ^ 2)) = 1).
Proof.
  intros n Hk Hc Hin.
  assert (Him : is_image image).
  { destruct Hin as (R1 & R2 & S1 & S2). unfold is_image. lia. }
  assert (Hn : (n / 2 = k)%nat) by apply odd_half.
  assert (Hh : (2 * (n / 2) <= d0 image)%nat)
    by (rewrite Hn; destruct Hin as (R1 & R2 & S1 & S2); lia).
  assert (Hw : (2 * (n / 2) <= d1 image)%nat)
    by (rewrite Hn; destruct Hin as (R1 & R2 & S1 & S2); lia).
  destruct (centered_patches_ok image n Him Hh Hw) as (cen & Ec & C0 & C1 & _ & _).
  exists cen, (normalize_patches cen k).
  split; [exact Ec|].
  split; [rewrite preprocess_via_centered, Ec, Hn; reflexivity|].
  intros Hge.
  destruct (normalize_textured cen k r s Hk) as [Hq Hs]; [|exact Hge|].
  { rewrite C0, C1. exact Hin. }
  split; [intros q _; apply Hq|].
  unfold sqnorm_at in Hs. rewrite Hs. apply sqrt_1.
Qed.

Lemma sum_n_sq_term_le (n : nat) (f : nat -> R) (i : nat) :
  (i < n)%nat -> f i ^ 2 <= sum_n n (fun i => f i ^ 2).
Proof.
  induction n as [|n IH]; intros Hi; [lia|]. cbn [sum_n].
  pose proof (sum_n_sq_nonneg n f) as Hs.
  pose proof (pow2_ge_0 (f n)) as Hn.
  destruct (Nat.eq_dec i n) as [->|Hne]; [lra|].
  assert (Hlt : (i < n)%nat) by lia. specialize (IH Hlt). lra.
Qed.

Lemma spot_3x3_interior : interior (d0 spot_3x3) (d1 spot_3x3) 1 1 1.
Proof. unfold interior, spot_3x3, image_3x3. cbn [d0 d1]. lia. Qed.

Lemma spot_3x3_is_image : is_image spot_3x3.
Proof. unfold is_image, spot_3x3, image_3x3. cbn [d0 d1 d2]. lia. Qed.

(** The centre of the spot image: the centered vector has 8/9 at the centre
    of the window, so its norm is far above eps. *)
Lemma spot_3x3_centre (cen : array3) :
  centered_patches spot_3x3 3 = Ok cen ->
  get3 cen 1 1 4 = 8 / 9 /\ eps <= get3 (norm_axis2 cen) 1 1 O.
Proof.
  intros E.
  assert (Hh : (2 * (3 / 2) <= d0 spot_3x3)%nat) by (cbn; lia).
  assert (Hw : (2 * (3 / 2) <= d1 spot_3x3)%nat) by (cbn; lia).
  destruct (centered_patches_ok spot_3x3 3 spot_3x3_is_image Hh Hw)
    as (cen' & E' & _ & _ & C2 & G).
  rewrite E in E'. injection E' as <-.
  assert (Hwin : forall a b, (a < 3)%nat -> (b < 3)%nat ->
            window_value spot_3x3 3 1 1 0 a b
            = if (a =? 1)%nat && (b =? 1)%nat then 1 else 0).
  { intros a b Ha Hb.
    rewrite (window_value_interior spot_3x3 3 1) by
      (reflexivity || exact spot_3x3_interior || assumption).
    cbn [spot_3x3 image_3x3 get3 Nat.sub Nat.add]. reflexivity. }
  assert (H4 : get3 cen 1 1 4 = 8 / 9).
  { rewrite G by (cbn; lia).
    change (4 / (3 * 3))%nat with 0%nat.
    change (4 mod (3 * 3) / 3)%nat with 1%nat.
    change ((4 mod (3 * 3)) mod 3)%nat with 1%nat.
    change (3 * 3)%nat with 9%nat.
    cbn [sum_n].
    change (0 / 3)%nat with 0%nat. change (0 mod 3)%nat with 0%nat.
    change (1 / 3)%nat with 0%nat. change (1 mod 3)%nat with 1%nat.
    change (2 / 3)%nat with 0%nat. change (2 mod 3)%nat with 2%nat.
    change (3 / 3)%nat with 1%nat. change (3 mod 3)%nat with 0%nat.
    change (4 / 3)%nat with 1%nat. change (4 mod 3)%nat with 1%nat.
    change (5 / 3)%nat with 1%nat. change (5 mod 3)%nat with 2%nat.
    change (6 / 3)%nat with 2%nat. change (6 mod 3)%nat with 0%nat.
    change (7 / 3)%nat with 2%nat. change (7 mod 3)%nat with 1%nat.
    change (8 / 3)%nat with 2%nat. change (8 mod 3)%nat with 2%nat.
    rewrite !Hwin by lia. cbn [Nat.eqb andb].
    replace (INR 9) with 9 by (rewrite INR_IZR_INZ; reflexivity). field. }
  split; [exact H4|].
  cbn [get3 norm_axis2].
  pose proof (sum_n_sq_term_le (d2 cen) (fun q => get3 cen 1 1 q) 4) as Hle.
  cbv beta in Hle. rewrite H4 in Hle.
  assert (Hq : (4 < d2 cen)%nat) by (rewrite C2; cbn; lia).
  specialize (Hle Hq).
  apply Rle_trans with (r2 := sqrt ((8 / 9) ^ 2)).
  - replace ((8 / 9) ^ 2) with ((8 / 9) * (8 / 9)) by ring.
    rewrite sqrt_square by lra. unfold eps. lra.
  - apply sqrt_le_1_alt. exact Hle.
Qed.

Lemma preprocess_unit_norm_witness :
  (0 < 1)%nat /\ (0 < d2 spot_3x3)%nat /\
  interior (d0 spot_3x3) (d1 spot_3x3) 1 1 1 /\
  exists cen out,
    centered_patches spot_3x3 (2 * 1 + 1) = Ok cen /\
    preprocess_ncc_impl spot_3x3 (2 * 1 + 1) = Ok out /\
    eps <= get3 (norm_axis2 cen) 1 1 O /\
    (forall q, (q < d2 out)%nat ->
       get3 out 1 1 q = get3 cen 1 1 q / get3 (norm_axis2 cen) 1 1 O) /\
    sqrt (sum_n (d2 out) (fun q => get3 out 1 1 q ^ 2)) = 1.
Proof.
  assert (H1 : (0 < 1)%nat) by lia.
  assert (Hc : (0 < d2 spot_3x3)%nat) by (cbn [d2 spot_3x3 image_3x3]; lia).
  split; [exact H1|]. split; [exact Hc|]. split; [exact spot_3x3_interior|].
  destruct (preprocess_unit_norm spot_3x3 1 1 1 H1 Hc spot_3x3_interior)
    as (cen & out & Ec & Eo & H).
  destruct (spot_3x3_centre cen Ec) as [_ Hge].
  exists cen, out. split; [exact Ec|]. split; [exact Eo|].
  split; [exact Hge|]. exact (H Hge).
Defined.

(** ** Dependence of the output on the input *)

(** The output vector at a pixel is determined by the centered vector at
    that pixel and the shape. *)
Lemma normalize_patches_ext (cen cen' : array3) (k r s q : nat) :
  d0 cen = d0 cen' -> d1 cen = d1 cen' -> d2 cen = d2 cen' ->
  (forall q', (q' < d2 cen)%nat -> get3 cen r s q' = get3 cen' r s q') ->
  (q < d2 cen)%nat ->
  get3 (normalize_patches cen k) r s q = get3 (normalize_patches cen' k) r s q.
Proof.
  intros E0 E1 E2 Hq Hlt.
  rewrite !normalize_patches_get.
  assert (HN : get3 (norm_axis2 cen) r s O = get3 (norm_axis2 cen') r s O).
  { cbn [get3 norm_axis2]. rewrite <- E2. f_equal.
    apply sum_n_ext. intros q' Hq'. rewrite Hq by exact Hq'. reflexivity. }
  assert (HN1 : get3 (assign_where_eq3 (norm_axis2 cen) 0 1) r s O
                = get3 (assign_where_eq3 (norm_axis2 cen') 0 1) r s O).
  { cbn [get3 assign_where_eq3] in *. rewrite HN. reflexivity. }
  assert (HM : getm (patch_mask (assign_where_eq3 (norm_axis2 cen) 0 1) k) r s O
               = getm (patch_mask (assign_where_eq3 (norm_axis2 cen') 0 1) k) r s O).
  { unfold patch_mask, assign_cols, assign_rows, ge3.
    cbn [getm m_d0 m_d1 d0 d1 assign_where_eq3 norm_axis2].
    rewrite E0, E1.
    rewrite HN1. reflexivity. }
  rewrite HN1, HM, Hq by exact Hlt. reflexivity.
Qed.

(** Two images of one shape whose windows at a pixel differ by a constant
    in every channel have the same centered vector at that pixel. *)
Lemma centered_patches_shift (image image' : array3) (n r s : nat)
    (delta : nat -> R) :
  same_shape image image' -> is_image image -> (0 < n)%nat ->
  (2 * (n / 2) <= d0 image)%nat -> (2 * (n / 2) <= d1 image)%nat ->
  (s < d1 image)%nat ->
  (forall ch a b, (ch < d2 image)%nat -> (a < n)%nat -> (b < n)%nat ->
     window_value image' n r s ch a b
     = window_value image n r s ch a b + delta ch) ->
  exists out out',
    preprocess_ncc_impl image n = Ok out /\
    preprocess_ncc_impl image' n = Ok out' /\
    d0 out' = d0 out /\ d1 out' = d1 out /\ d2 out' = d2 out /\
    d2 out = (d2 image * (n * n))%nat /\
    forall q, (q < d2 out)%nat -> get3 out' r s q = get3 out r s q.
Proof.
  intros (S0 & S1 & S2) Him Hn Hh Hw Hs Hwin.
  assert (Him' : is_image image').
  { unfold is_image in *. rewrite <- S0, <- S1, <- S2. exact Him. }
  destruct (centered_patches_ok image n Him Hh Hw)
    as (cen & Ec & C0 & C1 & C2 & Gc).
  destruct (centered_patches_ok image' n Him')
    as (cen' & Ec' & C0' & C1' & C2' & Gc'); [lia | lia |].
  exists (normalize_patches cen (n / 2)), (normalize_patches cen' (n / 2)).
  split; [rewrite preprocess_via_centered, Ec; reflexivity|].
  split; [rewrite preprocess_via_centered, Ec'; reflexivity|].
  change (d0 (normalize_patches cen' (n / 2))) with (d0 cen').
  change (d1 (normalize_patches cen' (n / 2))) with (d1 cen').
  change (d2 (normalize_patches cen' (n / 2))) with (d2 cen').
  change (d0 (normalize_patches cen (n / 2))) with (d0 cen).
  change (d1 (normalize_patches cen (n / 2))) with (d1 cen).
  change (d2 (normalize_patches cen (n / 2))) with (d2 cen).
  split; [congruence|]. split; [congruence|]. split; [congruence|].
  split; [exact C2|].
  intros q Hq.
  apply normalize_patches_ext; try congruence.
  intros q' Hq'.
  assert (Hnn : (n * n <> 0)%nat) by nia.
  assert (Hq2 : (q' < d2 image * (n * n))%nat) by congruence.
  assert (Hch : (q' / (n * n) < d2 image)%nat)
    by (apply Nat.Div0.div_lt_upper_bound; lia).
  assert (Hm : (q' mod (n * n) < n * n)%nat) by (apply Nat.mod_upper_bound, Hnn).
  assert (Hn0 : (n <> 0)%nat) by lia.
  rewrite Gc', Gc by (rewrite <- ?S1, <- ?S2; assumption).
  rewrite Hwin.
  2: exact Hch.
  2: apply Nat.Div0.div_lt_upper_bound; lia.
  2: apply Nat.mod_upper_bound, Hn0.
  rewrite (sum_n_ext _ _
             (fun m => window_value image n r s (q' / (n * n)) (m / n) (m mod n)
                       + delta (q' / (n * n))%nat)).
  2:{ intros m Hlt. apply Hwin; [exact Hch| |].
      - apply Nat.Div0.div_lt_upper_bound; lia.
      - apply Nat.mod_upper_bound, Hn0. }
  assert (Hsum : forall f c, sum_n (n * n) (fun m => f m + c)
                             = sum_n (n * n) f + INR (n * n) * c).
  { intros f c. rewrite <- sum_n_const. generalize (n * n)%nat as N.
    induction N as [|N IH]; cbn [sum_n]; [ring|]. rewrite IH. ring. }
  rewrite Hsum. field. apply not_0_INR, Hnn.
Qed.

(** X6: the output vector at an interior pixel depends only on the window
    around that pixel: two images of one shape that agree on the window give
    the same vector there. *)
Theorem preprocess_local (image image' : array3) (k r s : nat) :
  let n := (2 * k + 1)%nat in
  same_shape image image' -> (0 < d2 image)%nat ->
  interior (d0 image) (d1 image) k r s ->
  (forall ch a b, (ch < d2 image)%nat -> (a < n)%nat -> (b < n)%nat ->
     get3 image' (r - k + a) (s - k + b) ch
     = get3 image (r - k + a) (s - k + b) ch) ->
  exists out out',
    preprocess_ncc_impl image n = Ok out /\
    preprocess_ncc_impl image' n = Ok out' /\
    d2 out' = d2 out /\
    forall q, (q < d2 out)%nat -> get3 out' r s q = get3 out r s q.
Proof.
  intros n Hsh Hc Hin Hagree.
  assert (Him : is_image image).
  { destruct Hin as (R1 & R2 & S1 & S2). unfold is_image. lia. }
  assert (Hk : (n / 2 = k)%nat) by apply odd_half.
  assert (Hn : (0 < n)%nat) by (unfold n; lia).
  assert (Hh : (2 * (n / 2) <= d0 image)%nat)
    by (rewrite Hk; destruct Hin as (R1 & R2 & S1 & S2); lia).
  assert (Hw : (2 * (n / 2) <= d1 image)%nat)
    by (rewrite Hk; destruct Hin as (R1 & R2 & S1 & S2); lia).
  assert (Hs : (s < d1 image)%nat) by (destruct Hin as (R1 & R2 & S1 & S2); lia).
  assert (Hin' : interior (d0 image') (d1 image') k r s).
  { destruct Hsh as (S0 & S1 & _). rewrite <- S0, <- S1. exact Hin. }
  destruct (centered_patches_shift image image' n r s (fun _ => 0)
              Hsh Him Hn Hh Hw Hs)
    as (out & out' & E & E' & _ & _ & D2 & _ & G).
  { intros ch a b Hch Ha Hb.
    rewrite (window_value_interior image' n k) by assumption.
    rewrite (window_value_interior image n k) by assumption.
    rewrite Hagree by assumption. ring. }
  exists out, out'. auto.
Qed.

Lemma ramp_3x4_interior : interior (d0 ramp_3x4) (d1 ramp_3x4) 1 1 1.
Proof. unfold interior, ramp_3x4. cbn [d0 d1]. lia. Qed.

Lemma preprocess_local_witness :
  same_shape ramp_3x4 ramp_3x4' /\ (0 < d2 ramp_3x4)%nat /\
  interior (d0 ramp_3x4) (d1 ramp_3x4) 1 1 1 /\
  (forall ch a b, (ch < d2 ramp_3x4)%nat -> (a < 2 * 1 + 1)%nat ->
     (b < 2 * 1 + 1)%nat ->
     get3 ramp_3x4' (1 - 1 + a) (1 - 1 + b) ch
     = get3 ramp_3x4 (1 - 1 + a) (1 - 1 + b) ch) /\
  exists out out',
    preprocess_ncc_impl ramp_3x4 (2 * 1 + 1) = Ok out /\
    preprocess_ncc_impl ramp_3x4' (2 * 1 + 1) = Ok out' /\
    d2 out' = d2 out /\
    forall q, (q < d2 out)%nat -> get3 out' 1 1 q = get3 out 1 1 q.
Proof.
  assert (Hs : same_shape ramp_3x4 ramp_3x4') by (repeat split).
  assert (Hc : (0 < d2 ramp_3x4)%nat) by (cbn; lia).
  assert (Ha : forall ch a b, (ch < d2 ramp_3x4)%nat -> (a < 2 * 1 + 1)%nat ->
            (b < 2 * 1 + 1)%nat ->
            get3 ramp_3x4' (1 - 1 + a) (1 - 1 + b) ch
            = get3 ramp_3x4 (1 - 1 + a) (1 - 1 + b) ch).
  { intros ch a b _ _ Hb. cbn [ramp_3x4 ramp_3x4' get3 Nat.sub Nat.add].
    destruct (Nat.eqb_spec b 3); [lia | reflexivity]. }
  split; [exact Hs|]. split; [exact Hc|]. split; [exact ramp_3x4_interior|].
  split; [exact Ha|].
  exact (preprocess_local ramp_3x4 ramp_3x4' 1 1 1 Hs Hc ramp_3x4_interior Ha).
Defined.

(** ** Which shapes the patch normalizer accepts *)

Lemma adjust_index_bounds (len : nat) (i : Z) :
  (0 <= adjust_index len i <= Z.of_nat len)%Z.
Proof.
  destruct (Z.ltb_spec i 0).
  - rewrite adjust_index_neg by assumption. lia.
  - rewrite adjust_index_nonneg by assumption. lia.
Qed.

(** On an axis of length at most k both the destination slice [k : h-k] and
    every source slice [i : h-2k+i] are empty. *)
Lemma slice_dst_tiny (h k : nat) :
  (h <= k)%nat ->
  snd (slice h (Some (Z.of_nat k)) (Some (Z.of_nat h - Z.of_nat k)%Z)) = O.
Proof.
  intros H. unfold slice. cbn [snd].
  rewrite (adjust_index_nonneg h (Z.of_nat k)) by lia.
  pose proof (adjust_index_bounds h (Z.of_nat h - Z.of_nat k)). lia.
Qed.

Lemma slice_src_tiny (h k i : nat) :
  (h <= k)%nat ->
  snd (slice h (Some (Z.of_nat i))
         (Some (Z.of_nat h - 2 * Z.of_nat k + Z.of_nat i)%Z)) = O.
Proof.
  intros H. unfold slice. cbn [snd].
  rewrite (adjust_index_nonneg h (Z.of_nat i)) by lia.
  destruct (Z.ltb_spec (Z.of_nat h - 2 * Z.of_nat k + Z.of_nat i) 0).
  - rewrite adjust_index_neg by assumption. lia.
  - rewrite adjust_index_nonneg by assumption. lia.
Qed.

Lemma in_slice_empty (sl : nat * nat) (r : nat) :
  snd sl = O -> in_slice sl r = false.
Proof.
  intros H. unfold in_slice. rewrite H.
  apply andb_false_iff. rewrite Nat.leb_gt, Nat.ltb_ge. lia.
Qed.

Lemma in_interior_tiny (h w k r s : nat) :
  (h <= k)%nat \/ (w <= k)%nat -> in_interior h w k r s = false.
Proof.
  intros H. unfold in_interior.
  rewrite !andb_false_iff, !Nat.leb_gt, !Nat.ltb_ge. lia.
Qed.

(** When one axis is at most k long, an iteration of the copy loop assigns
    an empty slice and leaves the array of zeros unchanged. *)
Lemma filled_step_tiny (image : array3) (n i j : nat) (W : nat -> nat -> bool)
    (st : result array5) :
  let h := d0 image in
  let w := d1 image in
  let k := (n / 2)%nat in
  (2 * k <= h)%nat \/ (h <= k)%nat -> (2 * k <= w)%nat \/ (w <= k)%nat ->
  (h <= k)%nat \/ (w <= k)%nat -> (i <= 2 * k)%nat -> (j <= 2 * k)%nat ->
  filled image n W st ->
  filled image n W
    (normalized <- st ;;
     assign_patch normalized
       (slice h (Some (Z.of_nat k)) (Some (Z.of_nat h - Z.of_nat k)%Z))
       (slice w (Some (Z.of_nat k)) (Some (Z.of_nat w - Z.of_nat k)%Z))
       i j image
       (slice h (Some (Z.of_nat i))
          (Some (Z.of_nat h - 2 * Z.of_nat k + Z.of_nat i)%Z))
       (slice w (Some (Z.of_nat j))
          (Some (Z.of_nat w - 2 * Z.of_nat k + Z.of_nat j)%Z))).
Proof.
  intros h w k Hh Hw Htiny Hi Hj (P & -> & D0 & D1 & D2 & D3 & D4 & G).
  cbn [bind]. unfold assign_patch.
  assert (Brows : broadcastable
            (snd (slice h (Some (Z.of_nat i))
                    (Some (Z.of_nat h - 2 * Z.of_nat k + Z.of_nat i)%Z)))
            (snd (slice h (Some (Z.of_nat k))
                    (Some (Z.of_nat h - Z.of_nat k)%Z))) = true).
  { destruct Hh as [Hbig|Hsmall].
    - rewrite slice_dst, slice_src by assumption. cbn [snd].
      unfold broadcastable. rewrite Nat.eqb_refl. reflexivity.
    - rewrite slice_dst_tiny, slice_src_tiny by assumption. reflexivity. }
  assert (Bcols : broadcastable
            (snd (slice w (Some (Z.of_nat j))
                    (Some (Z.of_nat w - 2 * Z.of_nat k + Z.of_nat j)%Z)))
            (snd (slice w (Some (Z.of_nat k))
                    (Some (Z.of_nat w - Z.of_nat k)%Z))) = true).
  { destruct Hw as [Hbig|Hsmall].
    - rewrite slice_dst, slice_src by assumption. cbn [snd].
      unfold broadcastable. rewrite Nat.eqb_refl. reflexivity.
    - rewrite slice_dst_tiny, slice_src_tiny by assumption. reflexivity. }
  rewrite Brows, Bcols. unfold broadcastable at 1.
  rewrite D2, Nat.eqb_refl. cbn [orb andb].
  eexists. split; [reflexivity|]. cbn [a5_d0 a5_d1 a5_d2 a5_d3 a5_d4 get5].
  repeat split; try assumption.
  intros r s ch a b Hch.
  assert (Hempty :
    in_slice (slice h (Some (Z.of_nat k)) (Some (Z.of_nat h - Z.of_nat k)%Z)) r
    && in_slice (slice w (Some (Z.of_nat k)) (Some (Z.of_nat w - Z.of_nat k)%Z)) s
    = false).
  { destruct Htiny as [Ht|Ht].
    - rewrite (in_slice_empty _ r) by (apply slice_dst_tiny, Ht). reflexivity.
    - rewrite (in_slice_empty _ s) by (apply slice_dst_tiny, Ht).
      apply andb_false_r. }
  rewrite Hempty. cbn [andb]. apply G, Hch.
Qed.

(** The copy loop succeeds whenever neither axis has a length strictly
    between k and 2k. *)
Lemma fill_patches_filled (image : array3) (n : nat) :
  (2 * (n / 2) <= d0 image)%nat \/ (d0 image <= n / 2)%nat ->
  (2 * (n / 2) <= d1 image)%nat \/ (d1 image <= n / 2)%nat ->
  filled image n (fun a b => (a <? n)%nat && (b <? n)%nat)
    (fill_patches image n).
Proof.
  intros Hh Hw.
  destruct (le_lt_dec (2 * (n / 2)) (d0 image)) as [Bh|Sh];
    [destruct (le_lt_dec (2 * (n / 2)) (d1 image)) as [Bw|Sw]|].
  - apply fill_patches_ok; assumption.
  - assert (Htiny : (d0 image <= n / 2)%nat \/ (d1 image <= n / 2)%nat) by lia.
    pose proof (half_window n) as Hn.
    unfold fill_patches.
    apply (for_range_ind
             (fun _ st => filled image n (fun a b => (a <? n)%nat && (b <? n)%nat) st)).
    + exists (zeros5 (d0 image) (d1 image) (d2 image) n n).
      repeat split. intros r s ch a b _. cbn [get5 zeros5].
      rewrite in_interior_tiny by exact Htiny. reflexivity.
    + intros i st Hi Hst.
      apply (for_range_ind
               (fun _ st => filled image n
                  (fun a b => (a <? n)%nat && (b <? n)%nat) st)); [exact Hst|].
      intros j st' Hj Hst'.
      apply filled_step_tiny; try assumption; lia.
  - assert (Htiny : (d0 image <= n / 2)%nat \/ (d1 image <= n / 2)%nat) by lia.
    pose proof (half_window n) as Hn.
    unfold fill_patches.
    apply (for_range_ind
             (fun _ st => filled image n (fun a b => (a <? n)%nat && (b <? n)%nat) st)).
    + exists (zeros5 (d0 image) (d1 image) (d2 image) n n).
      repeat split. intros r s ch a b _. cbn [get5 zeros5].
      rewrite in_interior_tiny by exact Htiny. reflexivity.
    + intros i st Hi Hst.
      apply (for_range_ind
               (fun _ st => filled image n
                  (fun a b => (a <? n)%nat && (b <? n)%nat) st)); [exact Hst|].
      intros j st' Hj Hst'.
      apply filled_step_tiny; try assumption; lia.
Qed.

(** A width strictly between k and 2k makes the first slice assignment
    fail, as a height does. *)
Lemma fill_patches_raises_width (image : array3) (n : nat) :
  (0 < n)%nat ->
  (n / 2 < d1 image)%nat -> (d1 image < 2 * (n / 2))%nat ->
  fill_patches image n = Raise ValueError.
Proof.
  intros Hn H1 H2. unfold fill_patches.
  apply for_range_raise_first; [exact Hn| |].
  - apply for_range_raise_first; [exact Hn| |].
    + cbn [bind]. unfold assign_patch.
      assert (E1 : snd (slice (d1 image) (Some (Z.of_nat (n / 2)))
                         (Some (Z.of_nat (d1 image) - Z.of_nat (n / 2))%Z)) = O).
      { unfold slice. cbn [snd]. rewrite !adjust_index_nonneg by lia. lia. }
      assert (E2 : snd (slice (d1 image) (Some (Z.of_nat 0))
                         (Some (Z.of_nat (d1 image) - 2 * Z.of_nat (n / 2)
                                + Z.of_nat 0)%Z))
                   = (2 * (d1 image - n / 2))%nat).
      { unfold slice. cbn [snd].
        rewrite (adjust_index_nonneg _ (Z.of_nat 0)) by lia.
        rewrite adjust_index_neg by lia. lia. }
      rewrite E1, E2. unfold broadcastable at 2.
      destruct (Nat.eqb_spec (2 * (d1 image - n / 2)) 0); [lia|].
      destruct (Nat.eqb_spec (2 * (d1 image - n / 2)) 1); [lia|].
      cbn [orb]. rewrite andb_false_r. reflexivity.
    + reflexivity.
  - intros i. apply for_range_raise. reflexivity.
Qed.

(** From a filled array the reshapes and the normalization go through on a
    non-empty image. *)
Lemma preprocess_ok_of_filled (image : array3) (n : nat)
    (W : nat -> nat -> bool) :
  is_image image ->
  filled image n W (fill_patches image n) ->
  exists out,
    preprocess_ncc_impl image n = Ok out /\
    d0 out = d0 image /\ d1 out = d1 image /\ d2 out = (d2 image * (n * n))%nat.
Proof.
  intros Him (P & EP & D0 & D1 & D2 & D3 & D4 & _).
  unfold preprocess_ncc_impl, preprocess_operands. rewrite EP. cbn [bind].
  destruct (reshape5_4_ok P) as (A & EA & A0 & A1 & A2 & A3 & _).
  { rewrite D0, D1, D2. apply is_image_sizes, Him. }
  rewrite D0, D1, D2 in EA. rewrite EA. cbn [bind].
  destruct (reshape4_3_ok (sub4 A (mean_axis3 A))) as (B & EB & B0 & B1 & B2 & _).
  { cbn [sub4 a4_d0 a4_d1]. rewrite A0, A1, D0, D1. apply is_image_sizes, Him. }
  cbn [sub4 a4_d0 a4_d1 a4_d2 a4_d3] in EB, B0, B1, B2.
  rewrite A0, A1, D0, D1 in EB. rewrite EB. cbn [bind].
  eexists. split; [reflexivity|].
  cbn [d0 d1 d2 div3 mul_mask3 fst snd].
  rewrite B0, B1, B2, A0, A1, A2, A3, D0, D1, D2, D3, D4. auto.
Qed.

Lemma preprocess_outcome (image : array3) (n : nat) :
  is_image image -> (0 < n)%nat ->
  (~ ((n / 2 < d0 image /\ d0 image < 2 * (n / 2))%nat \/
      (n / 2 < d1 image /\ d1 image < 2 * (n / 2))%nat) ->
   exists out,
     preprocess_ncc_impl image n = Ok out /\
     d0 out = d0 image /\ d1 out = d1 image /\
     d2 out = (d2 image * (n * n))%nat) /\
  ((n / 2 < d0 image /\ d0 image < 2 * (n / 2))%nat \/
   (n / 2 < d1 image /\ d1 image < 2 * (n / 2))%nat ->
   preprocess_ncc_impl image n = Raise ValueError).
Proof.
  intros Him Hn. split.
  - intros Hgood.
    apply (preprocess_ok_of_filled image n
             (fun a b => (a <? n)%nat && (b <? n)%nat)); [exact Him|].
    apply fill_patches_filled; lia.
  - intros [[H1 H2]|[H1 H2]]; unfold preprocess_ncc_impl, preprocess_operands.
    + rewrite fill_patches_raises by assumption. reflexivity.
    + rewrite fill_patches_raises_width by assumption. reflexivity.
Qed.

(** X7: on a non-empty image and a window size n >= 1 with k = n // 2, the
    normalizer returns a field of shape h x w x (c n^2) exactly when neither
    the height nor the width lies strictly between k and 2k; otherwise it
    raises ValueError. *)
Theorem preprocess_returns_iff (image : array3) (n : nat) :
  let k := (n / 2)%nat in
  let bad :=
    (k < d0 image /\ d0 image < 2 * k)%nat \/
    (k < d1 image /\ d1 image < 2 * k)%nat in
  is_image image -> (0 < n)%nat ->
  (~ bad ->
   exists out,
     preprocess_ncc_impl image n = Ok out /\
     d0 out = d0 image /\ d1 out = d1 image /\
     d2 out = (d2 image * (n * n))%nat) /\
  (bad -> preprocess_ncc_impl image n = Raise ValueError).
Proof.
  intros k bad Him Hn. exact (preprocess_outcome image n Him Hn).
Qed.

Lemma preprocess_returns_iff_witness :
  is_image spot_3x3 /\ (0 < 7)%nat /\
  exists out,
    preprocess_ncc_impl spot_3x3 7 = Ok out /\
    d0 out = d0 spot_3x3 /\ d1 out = d1 spot_3x3 /\
    d2 out = (d2 spot_3x3 * (7 * 7))%nat.
Proof.
  assert (H7 : (0 < 7)%nat) by lia.
  split; [exact spot_3x3_is_image|]. split; [exact H7|].
  apply (proj1 (preprocess_returns_iff spot_3x3 7 spot_3x3_is_image H7)).
  cbn. lia.
Defined.

(** X8: an image without pixels or without channels is rejected: when the
    copy loop succeeds, [reshape(h, w, c, -1)] raises ValueError because the
    known axes have product 0. *)
Theorem preprocess_empty_image_raises (image : array3) (n : nat) :
  (d0 image * d1 image * d2 image = 0)%nat ->
  (2 * (n / 2) <= d0 image)%nat \/ (d0 image <= n / 2)%nat ->
  (2 * (n / 2) <= d1 image)%nat \/ (d1 image <= n / 2)%nat ->
  preprocess_ncc_impl image n = Raise ValueError.
Proof.
  intros Hz Hh Hw.
  destruct (fill_patches_filled image n Hh Hw) as (P & EP & _).
  unfold preprocess_ncc_impl, preprocess_operands. rewrite EP. cbn [bind].
  unfold reshape5_4. rewrite Hz, unknown_dim_0. reflexivity.
Qed.

Lemma preprocess_empty_image_raises_witness :
  (d0 no_channels_4x4 * d1 no_channels_4x4
   * d2 no_channels_4x4 = 0)%nat /\
  ((2 * (3 / 2) <= d0 no_channels_4x4)%nat \/
   (d0 no_channels_4x4 <= 3 / 2)%nat) /\
  ((2 * (3 / 2) <= d1 no_channels_4x4)%nat \/
   (d1 no_channels_4x4 <= 3 / 2)%nat) /\
  preprocess_ncc_impl no_channels_4x4 3 = Raise ValueError.
Proof.
  assert (Hz : (d0 no_channels_4x4 * d1 no_channels_4x4
                * d2 no_channels_4x4 = 0)%nat) by reflexivity.
  assert (Hh : (2 * (3 / 2) <= d0 no_channels_4x4)%nat \/
               (d0 no_channels_4x4 <= 3 / 2)%nat)
    by (left; cbn; lia).
  assert (Hw : (2 * (3 / 2) <= d1 no_channels_4x4)%nat \/
               (d1 no_channels_4x4 <= 3 / 2)%nat)
    by (left; cbn; lia).
  split; [exact Hz|]. split; [exact Hh|]. split; [exact Hw|].
  exact (preprocess_empty_image_raises no_channels_4x4 3 Hz Hh Hw).
Defined.

Lemma centered_patches_dims (image : array3) (n : nat) (cen : array3) :
  centered_patches image n = Ok cen ->
  d0 cen = d0 image /\ d1 cen = d1 image.
Proof.
  unfold centered_patches.
  destruct (fill_patches image n) as [P|e]; [|discriminate]. cbn [bind].
  destruct (reshape5_4 P (d0 image) (d1 image) (d2 image)) as [A|e];
    [|discriminate]. cbn [bind].
  unfold reshape4_3.
  destruct (unknown_dim _ _) as [m|e]; [|discriminate]. cbn [bind].
  intros H. injection H as <-. split; reflexivity.
Qed.

(** X9: whenever the normalizer returns, whatever the shape of the image
    and the window size, every pixel of the k-margin has the zero vector. *)
Theorem preprocess_margin_zero_if_returns (image : array3) (n : nat)
    (out : array3) (r s : nat) :
  preprocess_ncc_impl image n = Ok out ->
  margin (d0 image) (d1 image) (n / 2) r s ->
  forall q, get3 out r s q = 0.
Proof.
  intros E (Hr & Hs & Hm) q.
  rewrite preprocess_via_centered in E.
  destruct (centered_patches image n) as [cen|e] eqn:Ec; [|discriminate E].
  cbn [bind] in E. injection E as <-.
  destruct (centered_patches_dims image n cen Ec) as [C0 C1].
  rewrite normalize_patches_get, patch_mask_margin.
  - cbn [b2r]. unfold Rdiv. ring.
  - cbn [d0 assign_where_eq3 norm_axis2]. lia.
  - cbn [d1 assign_where_eq3 norm_axis2]. lia.
  - cbn [d0 d1 assign_where_eq3 norm_axis2]. rewrite C0, C1. tauto.
Qed.

Lemma preprocess_margin_zero_if_returns_witness :
  exists out,
    preprocess_ncc_impl spot_3x3 7 = Ok out /\
    margin (d0 spot_3x3) (d1 spot_3x3) (7 / 2) 1 1 /\
    forall q, get3 out 1 1 q = 0.
Proof.
  assert (H7 : (0 < 7)%nat) by lia.
  destruct (proj1 (preprocess_outcome spot_3x3 7 spot_3x3_is_image H7))
    as (out & E & _); [cbn; lia|].
  assert (Hm : margin (d0 spot_3x3) (d1 spot_3x3) (7 / 2) 1 1)
    by (unfold margin; cbn; lia).
  exists out. split; [exact E|]. split; [exact Hm|].
  exact (preprocess_margin_zero_if_returns spot_3x3 7 out 1 1 E Hm).
Defined.

(** X10: the window size is not checked for oddness: for an even size
    n = 2k the normalizer returns, and the raw vector of an interior pixel
    holds the n x n window whose top-left corner is (r-k, s-k). *)
Theorem preprocess_even_window (image : array3) (k r s ch i j : nat) :
  let n := (2 * k)%nat in
  (0 < k)%nat -> interior (d0 image) (d1 image) k r s ->
  (ch < d2 image)%nat -> (i < n)%nat -> (j < n)%nat ->
  exists raw out,
    raw_patches image n = Ok raw /\
    preprocess_ncc_impl image n = Ok out /\
    d2 out = (d2 image * (n * n))%nat /\
    get3 raw r s (ch * (n * n) + i * n + j)
    = get3 image (r - k + i) (s - k + j) ch.
Proof.
  intros n Hk Hin Hch Hi Hj.
  assert (Him : is_image image).
  { destruct Hin as (R1 & R2 & S1 & S2). unfold is_image. lia. }
  assert (Hn : (n / 2 = k)%nat).
  { unfold n. rewrite Nat.mul_comm. apply Nat.div_mul. lia. }
  assert (Hh : (2 * (n / 2) <= d0 image)%nat)
    by (rewrite Hn; destruct Hin as (R1 & R2 & S1 & S2); lia).
  assert (Hw : (2 * (n / 2) <= d1 image)%nat)
    by (rewrite Hn; destruct Hin as (R1 & R2 & S1 & S2); lia).
  assert (Hs : (s < d1 image)%nat) by (destruct Hin as (R1 & R2 & S1 & S2); lia).
  destruct (raw_patches_ok image n Him Hh Hw) as (raw & Er & _ & _ & _ & Gr).
  destruct (preprocess_ok_of_filled image n
              (fun a b => (a <? n)%nat && (b <? n)%nat) Him)
    as (out & Eo & _ & _ & O2).
  { apply fill_patches_ok; assumption. }
  exists raw, out. split; [exact Er|]. split; [exact Eo|]. split; [exact O2|].
  destruct (unravel_block n ch i j Hi Hj) as (E1 & E2 & E3).
  rewrite Gr.
  - rewrite E1, E2, E3. apply window_value_interior; assumption.
  - exact Hs.
  - assert ((i * n + j < n * n)%nat) by (apply lt_block; assumption). nia.
Qed.

Lemma ramp_3x4_interior_even : interior (d0 ramp_3x4) (d1 ramp_3x4) 1 1 2.
Proof. unfold interior, ramp_3x4. cbn [d0 d1]. lia. Qed.

Lemma preprocess_even_window_witness :
  (0 < 1)%nat /\ interior (d0 ramp_3x4) (d1 ramp_3x4) 1 1 2 /\
  (0 < d2 ramp_3x4)%nat /\ (1 < 2 * 1)%nat /\ (0 < 2 * 1)%nat /\
  exists raw out,
    raw_patches ramp_3x4 (2 * 1) = Ok raw /\
    preprocess_ncc_impl ramp_3x4 (2 * 1) = Ok out /\
    d2 out = (d2 ramp_3x4 * (2 * 1 * (2 * 1)))%nat /\
    get3 raw 1 2 (0 * (2 * 1 * (2 * 1)) + 1 * (2 * 1) + 0)
    = get3 ramp_3x4 (1 - 1 + 1) (2 - 1 + 0) 0.
Proof.
  assert (H1 : (0 < 1)%nat) by lia.
  assert (Hc : (0 < d2 ramp_3x4)%nat) by (cbn; lia).
  assert (Hi : (1 < 2 * 1)%nat) by lia.
  assert (Hj : (0 < 2 * 1)%nat) by lia.
  split; [exact H1|]. split; [exact ramp_3x4_interior_even|].
  split; [exact Hc|]. split; [exact Hi|]. split; [exact Hj|].
  exact (preprocess_even_window ramp_3x4 1 1 2 0 1 0
           H1 ramp_3x4_interior_even Hc Hi Hj).
Defined.

(** ** The normalizer followed by the correlation kernel *)

(** The normalizer's result on an image that is at least 2k + 1 high and
    wide, with the facts the correlation kernel needs. *)
Lemma preprocess_result (image : array3) (k : nat) :
  is_image image ->
  (2 * k <= d0 image)%nat -> (2 * k <= d1 image)%nat ->
  exists cen,
    centered_patches image (2 * k + 1) = Ok cen /\
    preprocess_ncc_impl image (2 * k + 1) = Ok (normalize_patches cen k) /\
    d0 cen = d0 image /\ d1 cen = d1 image /\
    d2 cen = (d2 image * ((2 * k + 1) * (2 * k + 1)))%nat.
Proof.
  intros Him Hh Hw.
  assert (Hn : ((2 * k + 1) / 2 = k)%nat) by apply odd_half.
  destruct (centered_patches_ok image (2 * k + 1) Him)
    as (cen & Ec & C0 & C1 & C2 & _); [rewrite Hn; lia | rewrite Hn; lia |].
  exists cen. split; [exact Ec|].
  split; [rewrite preprocess_via_centered, Ec, Hn; reflexivity|]. auto.
Qed.

Lemma dot_at_self (f : array3) (r s : nat) : dot_at f f r s = sqnorm_at f r s.
Proof. unfold dot_at, sqnorm_at. apply sum_n_ext. intros; ring. Qed.

Lemma dot_at_zero_l (f1 f2 : array3) (r s : nat) :
  (forall q, (q < d2 f1)%nat -> get3 f1 r s q = 0) -> dot_at f1 f2 r s = 0.
Proof.
  intros H. unfold dot_at. apply sum_n_zero. intros q Hq. rewrite H by exact Hq.
  ring.
Qed.

Lemma ncc_divisor_unit (f1 f2 : array3) (r s : nat) :
  sqnorm_at f1 r s = 1 -> sqnorm_at f2 r s = 1 -> ncc_divisor f1 f2 r s = 1.
Proof.
  intros H1 H2. unfold ncc_divisor, ncc_denominator.
  rewrite H1, H2, Rmult_1_r, sqrt_1, Reqb_false by lra. reflexivity.
Qed.

(** X11: correlating a normalized image with itself: the score is 1 at
    every interior pixel whose mean-subtracted norm is at least 1e-6, and 0
    at every pixel of the k-margin, where the kernel divides 0 by 1. *)
Theorem ncc_of_preprocessed_self (image : array3) (k : nat) :
  is_image image -> (0 < k)%nat ->
  (2 * k <= d0 image)%nat -> (2 * k <= d1 image)%nat ->
  exists cen out numerator denominator ncc,
    centered_patches image (2 * k + 1) = Ok cen /\
    preprocess_ncc_impl image (2 * k + 1) = Ok out /\
    ncc_operands out out = Ok (numerator, denominator) /\
    compute_ncc_impl out out = Ok ncc /\
    ncc = div2 numerator denominator /\
    a2_d0 ncc = d0 image /\ a2_d1 ncc = d1 image /\
    forall r s, (r < d0 image)%nat -> (s < d1 image)%nat ->
      (interior (d0 image) (d1 image) k r s ->
       eps <= get3 (norm_axis2 cen) r s O ->
       get2 denominator r s = 1 /\ get2 ncc r s = 1) /\
      (~ interior (d0 image) (d1 image) k r s ->
       get2 numerator r s = 0 /\ get2 denominator r s = 1 /\
       get2 ncc r s = 0).
Proof.
  intros Him Hk Hh Hw.
  destruct (preprocess_result image k Him Hh Hw) as (cen & Ec & Eo & C0 & C1 & C2).
  set (out := normalize_patches cen k) in *.
  assert (HL : (0 < d2 out)%nat).
  { change (d2 out) with (d2 cen). rewrite C2. destruct Him as (_ & _ & Hc). nia. }
  assert (Hsh : same_shape out out) by (repeat split).
  destruct (ncc_operands_same_shape out out Hsh HL)
    as (numerator & denominator & En & N0 & N1 & G).
  exists cen, out, numerator, denominator, (div2 numerator denominator).
  split; [exact Ec|]. split; [exact Eo|]. split; [exact En|].
  split; [apply compute_ncc_of_operands, En|]. split; [reflexivity|].
  split; [cbn [a2_d0 div2]; rewrite N0; exact C0|].
  split; [cbn [a2_d1 div2]; rewrite N1; exact C1|].
  intros r s Hr Hs.
  assert (Hs' : (s < d1 out)%nat) by (change (d1 out) with (d1 cen); lia).
  destruct (G r s Hs') as [Gn Gd].
  split.
  - intros Hin Hge.
    destruct (normalize_textured cen k r s Hk) as [_ Hunit];
      [rewrite C0, C1; exact Hin | exact Hge |].
    fold out in Hunit.
    assert (Hd : get2 denominator r s = 1)
      by (rewrite Gd; apply ncc_divisor_unit; exact Hunit).
    split; [exact Hd|].
    cbn [get2 div2]. rewrite Gn, Hd, dot_at_self, Hunit. field.
  - intros Hnot.
    assert (Hzero : forall q, (q < d2 out)%nat -> get3 out r s q = 0).
    { intros q Hq. unfold out. rewrite normalize_patches_get, patch_mask_margin.
      - cbn [b2r]. unfold Rdiv. ring.
      - cbn [d0 assign_where_eq3 norm_axis2]. lia.
      - cbn [d1 assign_where_eq3 norm_axis2]. lia.
      - cbn [d0 d1 assign_where_eq3 norm_axis2]. rewrite C0, C1.
        unfold interior in Hnot. lia. }
    assert (Hn0 : get2 numerator r s = 0)
      by (rewrite Gn; apply dot_at_zero_l; exact Hzero).
    assert (Hd : get2 denominator r s = 1).
    { rewrite Gd. unfold ncc_divisor, ncc_denominator, sqnorm_at.
      rewrite (sum_n_zero (d2 out)).
      - rewrite Rmult_0_l, sqrt_0, Reqb_true by reflexivity. reflexivity.
      - intros q Hq. rewrite Hzero by exact Hq. ring. }
    split; [exact Hn0|]. split; [exact Hd|].
    cbn [get2 div2]. rewrite Hn0, Hd. field.
Qed.

Lemma ncc_of_preprocessed_self_witness :
  is_image spot_3x3 /\ (0 < 1)%nat /\
  (2 * 1 <= d0 spot_3x3)%nat /\ (2 * 1 <= d1 spot_3x3)%nat /\
  exists cen out numerator denominator ncc,
    centered_patches spot_3x3 (2 * 1 + 1) = Ok cen /\
    preprocess_ncc_impl spot_3x3 (2 * 1 + 1) = Ok out /\
    ncc_operands out out = Ok (numerator, denominator) /\
    compute_ncc_impl out out = Ok ncc /\
    get2 ncc 1 1 = 1 /\
    (get2 numerator 0 1 = 0 /\ get2 denominator 0 1 = 1 /\ get2 ncc 0 1 = 0).
Proof.
  assert (H1 : (0 < 1)%nat) by lia.
  assert (Hh : (2 * 1 <= d0 spot_3x3)%nat) by (cbn; lia).
  assert (Hw : (2 * 1 <= d1 spot_3x3)%nat) by (cbn; lia).
  split; [exact spot_3x3_is_image|]. split; [exact H1|].
  split; [exact Hh|]. split; [exact Hw|].
  destruct (ncc_of_preprocessed_self spot_3x3 1 spot_3x3_is_image H1 Hh Hw)
    as (cen & out & numerator & denominator & ncc
        & Ec & Eo & Eops & En & _ & _ & _ & H).
  exists cen, out, numerator, denominator, ncc.
  split; [exact Ec|]. split; [exact Eo|]. split; [exact Eops|].
  split; [exact En|]. split.
  - apply (proj1 (H 1%nat 1%nat ltac:(cbn; lia) ltac:(cbn; lia))).
    + exact spot_3x3_interior.
    + apply (spot_3x3_centre cen Ec).
  - apply (proj2 (H 0%nat 1%nat ltac:(cbn; lia) ltac:(cbn; lia))).
    unfold interior. cbn. lia.
Defined.

(** X12: at a pixel that is interior and has norm at least 1e-6 in both
    images, the score of the two normalized fields is the plain dot product
    of the two output vectors. *)
Theorem ncc_of_preprocessed_is_dot (image1 image2 : array3) (k r s : nat) :
  same_shape image1 image2 -> (0 < k)%nat -> (0 < d2 image1)%nat ->
  interior (d0 image1) (d1 image1) k r s ->
  exists cen1 cen2 out1 out2 ncc,
    centered_patches image1 (2 * k + 1) = Ok cen1 /\
    centered_patches image2 (2 * k + 1) = Ok cen2 /\
    preprocess_ncc_impl image1 (2 * k + 1) = Ok out1 /\
    preprocess_ncc_impl image2 (2 * k + 1) = Ok out2 /\
    compute_ncc_impl out1 out2 = Ok ncc /\
    (eps <= get3 (norm_axis2 cen1) r s O ->
     eps <= get3 (norm_axis2 cen2) r s O ->
     get2 ncc r s = sum_n (d2 out1) (fun q => get3 out1 r s q * get3 out2 r s q)).
Proof.
  intros (S0 & S1 & S2) Hk Hc Hin.
  assert (Him1 : is_image image1).
  { destruct Hin as (R1 & R2 & T1 & T2). unfold is_image. lia. }
  assert (Him2 : is_image image2).
  { unfold is_image in *. rewrite <- S0, <- S1, <- S2. exact Him1. }
  assert (Hh : (2 * k <= d0 image1)%nat) by (destruct Hin as (R1 & R2 & T1 & T2); lia).
  assert (Hw : (2 * k <= d1 image1)%nat) by (destruct Hin as (R1 & R2 & T1 & T2); lia).
  destruct (preprocess_result image1 k Him1 Hh Hw) as (cen1 & Ec1 & Eo1 & A0 & A1 & A2).
  destruct (preprocess_result image2 k Him2) as (cen2 & Ec2 & Eo2 & B0 & B1 & B2);
    [lia | lia |].
  set (out1 := normalize_patches cen1 k) in *.
  set (out2 := normalize_patches cen2 k) in *.
  assert (Hsh : same_shape out1 out2).
  { unfold same_shape. change (d0 out1) with (d0 cen1). change (d0 out2) with (d0 cen2).
    change (d1 out1) with (d1 cen1). change (d1 out2) with (d1 cen2).
    change (d2 out1) with (d2 cen1). change (d2 out2) with (d2 cen2).
    repeat split; congruence. }
  assert (HL : (0 < d2 out1)%nat).
  { change (d2 out1) with (d2 cen1). rewrite A2. nia. }
  destruct (compute_ncc_same_shape out1 out2 Hsh HL) as (ncc & En & _ & _ & G).
  exists cen1, cen2, out1, out2, ncc.
  split; [exact Ec1|]. split; [exact Ec2|]. split; [exact Eo1|].
  split; [exact Eo2|]. split; [exact En|].
  intros Hge1 Hge2.
  destruct (normalize_textured cen1 k r s Hk) as [_ U1];
    [rewrite A0, A1; exact Hin | exact Hge1 |].
  destruct (normalize_textured cen2 k r s Hk) as [_ U2];
    [rewrite B0, B1, <- S0, <- S1; exact Hin | exact Hge2 |].
  rewrite G.
  - rewrite ncc_divisor_unit by assumption. unfold dot_at. field.
  - change (d1 out1) with (d1 cen1). destruct Hin as (R1 & R2 & T1 & T2). lia.
Qed.

Lemma ncc_of_preprocessed_is_dot_witness :
  same_shape spot_3x3 spot_3x3 /\ (0 < 1)%nat /\ (0 < d2 spot_3x3)%nat /\
  interior (d0 spot_3x3) (d1 spot_3x3) 1 1 1 /\
  exists cen1 cen2 out1 out2 ncc,
    centered_patches spot_3x3 (2 * 1 + 1) = Ok cen1 /\
    centered_patches spot_3x3 (2 * 1 + 1) = Ok cen2 /\
    preprocess_ncc_impl spot_3x3 (2 * 1 + 1) = Ok out1 /\
    preprocess_ncc_impl spot_3x3 (2 * 1 + 1) = Ok out2 /\
    compute_ncc_impl out1 out2 = Ok ncc /\
    get2 ncc 1 1 = sum_n (d2 out1) (fun q => get3 out1 1 1 q * get3 out2 1 1 q).
Proof.
  assert (Hs : same_shape spot_3x3 spot_3x3) by (repeat split).
  assert (H1 : (0 < 1)%nat) by lia.
  assert (Hc : (0 < d2 spot_3x3)%nat) by (cbn; lia).
  split; [exact Hs|]. split; [exact H1|]. split; [exact Hc|].
  split; [exact spot_3x3_interior|].
  destruct (ncc_of_preprocessed_is_dot spot_3x3 spot_3x3 1 1 1
              Hs H1 Hc spot_3x3_interior)
    as (cen1 & cen2 & out1 & out2 & ncc & E1 & E2 & O1 & O2 & En & H).
  exists cen1, cen2, out1, out2, ncc.
  repeat (split; [assumption|]).
  apply H; [apply (spot_3x3_centre cen1 E1) | apply (spot_3x3_centre cen2 E2)].
Defined.

(** ** Projection *)

Lemma project_impl_dims (K Rt : matrix) (points : array3) :
  d0 (project_impl K Rt points) = d0 points /\
  d1 (project_impl K Rt points) = d1 points /\
  d2 (project_impl K Rt points) = 2%nat.
Proof.
  unfold project_impl.
  apply (for_range_ind
           (fun _ st => d0 st = d0 points /\ d1 st = d1 points /\ d2 st = 2%nat)).
  - repeat split.
  - intros h st _ Hst.
    apply (for_range_ind
             (fun _ st => d0 st = d0 points /\ d1 st = d1 points /\ d2 st = 2%nat));
      [exact Hst|].
    intros w st' _ Hst'. exact Hst'.
Qed.

(** X13: [project_impl] returns a height x width x 2 field whose cell
    (h, w) holds (u / z, v / z), where (u, v, z) = K (Rt [X, Y, Z, 1]) for
    the point (X, Y, Z) stored at cell (h, w) of the input. *)
Theorem project_impl_cells (K Rt : matrix) (points : array3) :
  d0 (project_impl K Rt points) = d0 points /\
  d1 (project_impl K Rt points) = d1 points /\
  d2 (project_impl K Rt points) = 2%nat /\
  forall h w, (h < d0 points)%nat -> (w < d1 points)%nat ->
    let X := get3 points h w 0 in
    let Y := get3 points h w 1 in
    let Z := get3 points h w 2 in
    let cam := fun i => Rt i 0%nat * X + Rt i 1%nat * Y + Rt i 2%nat * Z
                        + Rt i 3%nat in
    let pix := fun i => K i 0%nat * cam 0%nat + K i 1%nat * cam 1%nat
                        + K i 2%nat * cam 2%nat in
    get3 (project_impl K Rt points) h w 0 = pix 0%nat / pix 2%nat /\
    get3 (project_impl K Rt points) h w 1 = pix 1%nat / pix 2%nat.
Proof.
  destruct (project_impl_dims K Rt points) as (D0 & D1 & D2).
  split; [exact D0|]. split; [exact D1|]. split; [exact D2|].
  intros h w Hh Hw X Y Z cam pix.
  assert (Hcam : forall i, ext_point_of Rt points h w i = cam i).
  { intros i. unfold ext_point_of, dot, vset, vzeros, cam, X, Y, Z.
    cbn [sum_n Nat.eqb]. ring. }
  assert (Hpix : forall i, dot 3 K (ext_point_of Rt points h w) i = pix i).
  { intros i. unfold dot at 1. cbn [sum_n]. rewrite !Hcam. unfold pix. ring. }
  rewrite !project_impl_get by lia.
  rewrite !project_point_eq, !Hpix. split; reflexivity.
Qed.

(** X14: the projection only depends on the direction of the camera-space
    point: if at some cell the camera-space point of one field is a
    non-zero multiple of that of another field, both project to the same
    pixel (provided the homogeneous coordinate is not 0). *)
Theorem project_ray_invariant (K Rt : matrix) (points points' : array3)
    (h w : nat) (lambda : R) :
  (h < d0 points)%nat -> (w < d1 points)%nat ->
  (h < d0 points')%nat -> (w < d1 points')%nat ->
  lambda <> 0 ->
  (forall i, (i < 3)%nat ->
     ext_point_of Rt points' h w i = lambda * ext_point_of Rt points h w i) ->
  dot 3 K (ext_point_of Rt points h w) 2%nat <> 0 ->
  get3 (project_impl K Rt points') h w 0 = get3 (project_impl K Rt points) h w 0 /\
  get3 (project_impl K Rt points') h w 1 = get3 (project_impl K Rt points) h w 1.
Proof.
  intros Hh Hw Hh' Hw' Hl Hray Hz.
  assert (Hdot : forall i,
            dot 3 K (ext_point_of Rt points' h w) i
            = lambda * dot 3 K (ext_point_of Rt points h w) i).
  { intros i. unfold dot. rewrite <- sum_n_scal. apply sum_n_ext.
    intros j Hj. rewrite Hray by exact Hj. ring. }
  rewrite !project_impl_get by lia.
  rewrite !project_point_eq, !Hdot.
  split; field; split; assumption.
Qed.

Lemma project_ray_invariant_witness :
  (0 < d0 origin_field)%nat /\ (0 < d1 origin_field)%nat /\
  (0 < d0 point_123_field)%nat /\ (0 < d1 point_123_field)%nat /\
  2 <> 0 /\
  (forall i, (i < 3)%nat ->
     ext_point_of Rt_example point_123_field 0 0 i
     = 2 * ext_point_of Rt_example origin_field 0 0 i) /\
  dot 3 K_example (ext_point_of Rt_example origin_field 0 0) 2%nat <> 0 /\
  get3 (project_impl K_example Rt_example point_123_field) 0 0 0
  = get3 (project_impl K_example Rt_example origin_field) 0 0 0 /\
  get3 (project_impl K_example Rt_example point_123_field) 0 0 1
  = get3 (project_impl K_example Rt_example origin_field) 0 0 1.
Proof.
  assert (H0 : (0 < d0 origin_field)%nat) by (cbn; lia).
  assert (H1 : (0 < d1 origin_field)%nat) by (cbn; lia).
  assert (H0' : (0 < d0 point_123_field)%nat) by (cbn; lia).
  assert (H1' : (0 < d1 point_123_field)%nat) by (cbn; lia).
  assert (H2 : 2 <> 0) by lra.
  assert (Hray : forall i, (i < 3)%nat ->
            ext_point_of Rt_example point_123_field 0 0 i
            = 2 * ext_point_of Rt_example origin_field 0 0 i).
  { intros i Hi. unfold ext_point_of, dot, vset, vzeros.
    cbn [sum_n Nat.eqb get3 origin_field point_123_field].
    destruct i as [|[|[|i]]]; [| | |lia]; cbv [Rt_example]; ring. }
  assert (Hz : dot 3 K_example (ext_point_of Rt_example origin_field 0 0) 2%nat
               <> 0).
  { unfold ext_point_of, dot, vset, vzeros.
    cbn [sum_n Nat.eqb get3 origin_field]. cbv [K_example Rt_example]. lra. }
  split; [exact H0|]. split; [exact H1|]. split; [exact H0'|].
  split; [exact H1'|]. split; [exact H2|]. split; [exact Hray|].
  split; [exact Hz|].
  exact (project_ray_invariant K_example Rt_example origin_field point_123_field
           0 0 2 H0 H1 H0' H1' H2 Hray Hz).
Defined.

(** ** Corner unprojection: errors and geometry *)

Lemma adj_bottom_row (K : matrix) :
  K 2%nat 0%nat = 0 -> K 2%nat 1%nat = 0 -> K 2%nat 2%nat = 1 ->
  adj 3 K 2%nat 0%nat = 0 /\ adj 3 K 2%nat 1%nat = 0 /\
  adj 3 K 2%nat 2%nat = det 3 K.
Proof.
  intros H0 H1 H2. expand_det. rewrite H0, H1, H2. repeat split; ring.
Qed.

(** X16: for intrinsics with bottom row (0, 0, 1), every unprojected corner
    lies at the requested depth: its camera-space z coordinate is [depth]. *)
Theorem unproject_corners_at_depth (K Rt : matrix) (width height : Z)
    (depth : R) (i j : nat) :
  det 3 K <> 0 -> det 4 (extend_Rt Rt) <> 0 ->
  K 2%nat 0%nat = 0 -> K 2%nat 1%nat = 0 -> K 2%nat 2%nat = 1 ->
  (i < 2)%nat -> (j < 2)%nat ->
  exists corners,
    unproject_corners_impl K width height depth Rt = Ok corners /\
    ext_point_of Rt corners i j 2%nat = depth.
Proof.
  intros HK HRt H0 H1 H2 Hi Hj.
  destruct (unproject_corners_get K Rt width height depth HK HRt)
    as (corners & E & _ & _ & _ & G).
  exists corners. split; [exact E|].
  rewrite (ext_point_of_unprojected
             (mscale (fun i j => adj 3 K i j / det 3 K) depth) Rt corners
             (corner_x width j) (corner_y height i)); [|exact HRt| |lia].
  2:{ intros c Hc. apply G; assumption. }
  destruct (adj_bottom_row K H0 H1 H2) as (A0 & A1 & A2).
  unfold dot, mscale. cbn [sum_n]. rewrite A0, A1, A2.
  unfold vset. cbn [Nat.eqb]. field. exact HK.
Qed.

Lemma unproject_corners_at_depth_witness :
  det 3 K_example <> 0 /\ det 4 (extend_Rt Rt_example) <> 0 /\
  K_example 2%nat 0%nat = 0 /\ K_example 2%nat 1%nat = 0 /\
  K_example 2%nat 2%nat = 1 /\ (1 < 2)%nat /\ (0 < 2)%nat /\
  exists corners,
    unproject_corners_impl K_example 640 480 5 Rt_example = Ok corners /\
    ext_point_of Rt_example corners 1 0 2%nat = 5.
Proof.
  assert (HK : det 3 K_example <> 0) by (rewrite det_K_example; lra).
  assert (HRt : det 4 (extend_Rt Rt_example) <> 0) by (rewrite det_Rt_example; lra).
  assert (H0 : K_example 2%nat 0%nat = 0) by reflexivity.
  assert (H1 : K_example 2%nat 1%nat = 0) by reflexivity.
  assert (H2 : K_example 2%nat 2%nat = 1) by reflexivity.
  assert (Hi : (1 < 2)%nat) by lia.
  assert (Hj : (0 < 2)%nat) by lia.
  split; [exact HK|]. split; [exact HRt|]. split; [exact H0|]. split; [exact H1|].
  split; [exact H2|]. split; [exact Hi|]. split; [exact Hj|].
  exact (unproject_corners_at_depth K_example Rt_example 640 480 5 1 0
           HK HRt H0 H1 H2 Hi Hj).
Defined.

(** X17: at depth 0 the four corners coincide, at the camera centre: the
    point that Rt sends to the origin of camera space. *)
Theorem unproject_corners_depth_0 (K Rt : matrix) (width height : Z)
    (i j : nat) :
  det 3 K <> 0 -> det 4 (extend_Rt Rt) <> 0 ->
  (i < 2)%nat -> (j < 2)%nat ->
  exists corners,
    unproject_corners_impl K width height 0 Rt = Ok corners /\
    (forall c, (c < 3)%nat -> get3 corners i j c = get3 corners 0 0 c) /\
    (forall c, (c < 3)%nat -> ext_point_of Rt corners i j c = 0).
Proof.
  intros HK HRt Hi Hj.
  destruct (unproject_corners_get K Rt width height 0 HK HRt)
    as (corners & E & _ & _ & _ & G).
  exists corners. split; [exact E|]. split.
  - intros c Hc. rewrite !G by lia.
    unfold unproject_homogeneous, dot, mscale, vset, vzeros.
    cbn [sum_n Nat.eqb]. ring.
  - intros c Hc.
    rewrite (ext_point_of_unprojected
               (mscale (fun i j => adj 3 K i j / det 3 K) 0) Rt corners
               (corner_x width j) (corner_y height i)); [|exact HRt| |exact Hc].
    2:{ intros c' Hc'. apply G; assumption. }
    unfold dot, mscale. apply sum_n_zero. intros m _. ring.
Qed.

Lemma unproject_corners_depth_0_witness :
  det 3 K_example <> 0 /\ det 4 (extend_Rt Rt_example) <> 0 /\
  (1 < 2)%nat /\ (1 < 2)%nat /\
  exists corners,
    unproject_corners_impl K_example 640 480 0 Rt_example = Ok corners /\
    (forall c, (c < 3)%nat -> get3 corners 1 1 c = get3 corners 0 0 c) /\
    (forall c, (c < 3)%nat -> ext_point_of Rt_example corners 1 1 c = 0).
Proof.
  assert (HK : det 3 K_example <> 0) by (rewrite det_K_example; lra).
  assert (HRt : det 4 (extend_Rt Rt_example) <> 0) by (rewrite det_Rt_example; lra).
  assert (H12 : (1 < 2)%nat) by lia.
  split; [exact HK|]. split; [exact HRt|]. split; [exact H12|]. split; [exact H12|].
  exact (unproject_corners_depth_0 K_example Rt_example 640 480 1 1
           HK HRt H12 H12).
Defined.

(** X18: the four unprojected corners form a parallelogram:
    corner[0][0] + corner[1][1] = corner[0][1] + corner[1][0]. *)
Theorem unproject_corners_parallelogram (K Rt : matrix) (width height : Z)
    (depth : R) :
  det 3 K <> 0 -> det 4 (extend_Rt Rt) <> 0 ->
  exists corners,
    unproject_corners_impl K width height depth Rt = Ok corners /\
    forall c, (c < 3)%nat ->
      get3 corners 0 0 c + get3 corners 1 1 c
      = get3 corners 0 1 c + get3 corners 1 0 c.
Proof.
  intros HK HRt.
  destruct (unproject_corners_get K Rt width height depth HK HRt)
    as (corners & E & _ & _ & _ & G).
  exists corners. split; [exact E|].
  intros c Hc. rewrite !G by lia.
  unfold unproject_homogeneous, dot, mscale, vset, vzeros, corner_x, corner_y.
  cbn [sum_n Nat.eqb]. ring.
Qed.

Lemma unproject_corners_parallelogram_witness :
  det 3 K_example <> 0 /\ det 4 (extend_Rt Rt_example) <> 0 /\
  exists corners,
    unproject_corners_impl K_example 640 480 5 Rt_example = Ok corners /\
    forall c, (c < 3)%nat ->
      get3 corners 0 0 c + get3 corners 1 1 c
      = get3 corners 0 1 c + get3 corners 1 0 c.
Proof.
  assert (HK : det 3 K_example <> 0) by (rewrite det_K_example; lra).
  assert (HRt : det 4 (extend_Rt Rt_example) <> 0) by (rewrite det_Rt_example; lra).
  split; [exact HK|]. split; [exact HRt|].
  exact (unproject_corners_parallelogram K_example Rt_example 640 480 5 HK HRt).
Defined.

(** X19: each corner moves along a line as the depth varies: the corner at
    depth d is c0 + d (c1 - c0), where c0 and c1 are the corners at depths
    0 and 1. *)
Theorem unproject_corners_affine_in_depth (K Rt : matrix) (width height : Z)
    (depth : R) :
  det 3 K <> 0 -> det 4 (extend_Rt Rt) <> 0 ->
  exists corners corners0 corners1,
    unproject_corners_impl K width height depth Rt = Ok corners /\
    unproject_corners_impl K width height 0 Rt = Ok corners0 /\
    unproject_corners_impl K width height 1 Rt = Ok corners1 /\
    forall i j c, (i < 2)%nat -> (j < 2)%nat -> (c < 3)%nat ->
      get3 corners i j c
      = get3 corners0 i j c + depth * (get3 corners1 i j c - get3 corners0 i j c).
Proof.
  intros HK HRt.
  destruct (unproject_corners_get K Rt width height depth HK HRt)
    as (corners & E & _ & _ & _ & G).
  destruct (unproject_corners_get K Rt width height 0 HK HRt)
    as (corners0 & E0 & _ & _ & _ & G0).
  destruct (unproject_corners_get K Rt width height 1 HK HRt)
    as (corners1 & E1 & _ & _ & _ & G1).
  exists corners, corners0, corners1.
  split; [exact E|]. split; [exact E0|]. split; [exact E1|].
  intros i j c Hi Hj Hc. rewrite G, G0, G1 by assumption.
  unfold unproject_homogeneous, dot, mscale, vset, vzeros.
  cbn [sum_n Nat.eqb]. ring.
Qed.

Lemma unproject_corners_affine_in_depth_witness :
  det 3 K_example <> 0 /\ det 4 (extend_Rt Rt_example) <> 0 /\
  exists corners corners0 corners1,
    unproject_corners_impl K_example 640 480 5 Rt_example = Ok corners /\
    unproject_corners_impl K_example 640 480 0 Rt_example = Ok corners0 /\
    unproject_corners_impl K_example 640 480 1 Rt_example = Ok corners1 /\
    forall i j c, (i < 2)%nat -> (j < 2)%nat -> (c < 3)%nat ->
      get3 corners i j c
      = get3 corners0 i j c + 5 * (get3 corners1 i j c - get3 corners0 i j c).
Proof.
  assert (HK : det 3 K_example <> 0) by (rewrite det_K_example; lra).
  assert (HRt : det 4 (extend_Rt Rt_example) <> 0) by (rewrite det_Rt_example; lra).
  split; [exact HK|]. split; [exact HRt|].
  exact (unproject_corners_affine_in_depth K_example Rt_example 640 480 5 HK HRt).
Defined.

(** ** Mismatched shapes and gain *)

(** X20: when the second field has the element count of the first but
    another shape, it is read in row-major order as if it had the shape of
    the first: the score at (r, s) correlates the vector of the first field
    with the L consecutive elements of the second that start at flat
    position (r w + s) L. *)
Theorem compute_ncc_reads_flat (f1 f2 : array3) :
  (0 < d2 f1)%nat -> size3 f1 = size3 f2 ->
  exists ncc,
    compute_ncc_impl f1 f2 = Ok ncc /\
    a2_d0 ncc = d0 f1 /\ a2_d1 ncc = d1 f1 /\
    forall r s, (s < d1 f1)%nat ->
      let v2 := fun q => flat3 f2 ((r * d1 f1 + s) * d2 f1 + q) in
      let numerator := sum_n (d2 f1) (fun q => get3 f1 r s q * v2 q) in
      let denominator :=
        sqrt (sum_n (d2 f1) (fun q => get3 f1 r s q ^ 2)
              * sum_n (d2 f1) (fun q => v2 q ^ 2)) in
      get2 ncc r s
      = numerator / (if Reqb denominator 0 then 1 else denominator).
Proof.
  intros HL Hsize.
  rewrite compute_ncc_unfold by exact HL.
  unfold reshape3_5.
  replace (size3 f2 =? d0 f1 * d1 f1 * d2 f1 * 1 * 1)%nat with true
    by (symmetry; apply Nat.eqb_eq; rewrite <- Hsize; unfold size3; lia).
  cbn [bind]. eexists. split; [reflexivity|].
  split; [reflexivity|]. split; [reflexivity|].
  intros r s Hs.
  pose (v2 := fun q => flat3 f2 ((r * d1 f1 + s) * d2 f1 + q)).
  pose (numerator := sum_n (d2 f1) (fun q => get3 f1 r s q * v2 q)).
  assert (G1 : forall q, (q < d2 f1)%nat ->
             flat3 f1 (ravel5 (d1 f1) (d2 f1) 1 1 r s q 0 0) = get3 f1 r s q).
  { intros q Hq. unfold ravel5.
    replace ((((r * d1 f1 + s) * d2 f1 + q) * 1 + 0) * 1 + 0)%nat
      with ((r * d1 f1 + s) * d2 f1 + q)%nat by lia.
    apply flat3_ravel; assumption. }
  assert (G2 : forall q,
             flat3 f2 (ravel5 (d1 f1) (d2 f1) 1 1 r s q 0 0) = v2 q).
  { intros q. unfold ravel5, v2. f_equal. lia. }
  unfold div2, assign_where_eq2, sqrt2, mul2, sum_axes234, mul5, square5.
  cbn [get2 get5 a5_d2 a5_d3 a5_d4].
  assert (Hn : sum_n (d2 f1) (fun i2 =>
                 sum_n 1 (fun i3 => sum_n 1 (fun i4 =>
                   flat3 f1 (ravel5 (d1 f1) (d2 f1) 1 1 r s i2 i3 i4)
                   * flat3 f2 (ravel5 (d1 f1) (d2 f1) 1 1 r s i2 i3 i4))))
               = numerator).
  { apply sum_n_ext. intros q Hq. rewrite !sum_n_1, G1, G2 by exact Hq.
    reflexivity. }
  assert (Hs1 : sum_n (d2 f1) (fun i2 =>
                  sum_n 1 (fun i3 => sum_n 1 (fun i4 =>
                    flat3 f1 (ravel5 (d1 f1) (d2 f1) 1 1 r s i2 i3 i4) ^ 2)))
                = sum_n (d2 f1) (fun q => get3 f1 r s q ^ 2)).
  { apply sum_n_ext. intros q Hq. rewrite !sum_n_1, G1 by exact Hq.
    reflexivity. }
  assert (Hs2 : sum_n (d2 f1) (fun i2 =>
                  sum_n 1 (fun i3 => sum_n 1 (fun i4 =>
                    flat3 f2 (ravel5 (d1 f1) (d2 f1) 1 1 r s i2 i3 i4) ^ 2)))
                = sum_n (d2 f1) (fun q => v2 q ^ 2)).
  { apply sum_n_ext. intros q Hq. rewrite !sum_n_1, G2. reflexivity. }
  rewrite Hn, Hs1, Hs2. reflexivity.
Qed.

Lemma compute_ncc_reads_flat_witness :
  (0 < d2 field_1x2)%nat /\ size3 field_1x2 = size3 field_2x1 /\
  exists ncc,
    compute_ncc_impl field_1x2 field_2x1 = Ok ncc /\
    a2_d0 ncc = d0 field_1x2 /\ a2_d1 ncc = d1 field_1x2 /\
    forall r s, (s < d1 field_1x2)%nat ->
      let v2 := fun q => flat3 field_2x1 ((r * d1 field_1x2 + s) * d2 field_1x2 + q) in
      let numerator := sum_n (d2 field_1x2) (fun q => get3 field_1x2 r s q * v2 q) in
      let denominator :=
        sqrt (sum_n (d2 field_1x2) (fun q => get3 field_1x2 r s q ^ 2)
              * sum_n (d2 field_1x2) (fun q => v2 q ^ 2)) in
      get2 ncc r s
      = numerator / (if Reqb denominator 0 then 1 else denominator).
Proof.
  assert (HL : (0 < d2 field_1x2)%nat) by (cbn; lia).
  assert (Hs : size3 field_1x2 = size3 field_2x1) by reflexivity.
  split; [exact HL|]. split; [exact Hs|].
  exact (compute_ncc_reads_flat field_1x2 field_2x1 HL Hs).
Defined.

(** X21: gain invariance: multiplying the image by a > 0 does not change
    the output vector at an interior pixel, as long as the norm of the
    mean-subtracted vector is at least 1e-6 before and after. *)
Theorem preprocess_gain_invariant (image : array3) (a : R) (k r s : nat) :
  let n := (2 * k + 1)%nat in
  0 < a -> (0 < k)%nat -> (0 < d2 image)%nat ->
  interior (d0 image) (d1 image) k r s ->
  exists cen out out',
    centered_patches image n = Ok cen /\
    preprocess_ncc_impl image n = Ok out /\
    preprocess_ncc_impl (scale3 a image) n = Ok out' /\
    d2 out' = d2 out /\
    (eps <= get3 (norm_axis2 cen) r s O ->
     eps <= a * get3 (norm_axis2 cen) r s O ->
     forall q, (q < d2 out)%nat -> get3 out' r s q = get3 out r s q).
Proof.
  intros n Ha Hk Hc Hin.
  assert (Him : is_image image).
  { destruct Hin as (R1 & R2 & S1 & S2). unfold is_image. lia. }
  assert (Him' : is_image (scale3 a image)) by exact Him.
  assert (Hn : (n / 2 = k)%nat) by apply odd_half.
  assert (Hh : (2 * (n / 2) <= d0 image)%nat)
    by (rewrite Hn; destruct Hin as (R1 & R2 & S1 & S2); lia).
  assert (Hw : (2 * (n / 2) <= d1 image)%nat)
    by (rewrite Hn; destruct Hin as (R1 & R2 & S1 & S2); lia).
  assert (Hs : (s < d1 image)%nat) by (destruct Hin as (R1 & R2 & S1 & S2); lia).
  destruct (centered_patches_ok image n Him Hh Hw)
    as (cen & Ec & C0 & C1 & C2 & Gc).
  destruct (centered_patches_ok (scale3 a image) n Him' Hh Hw)
    as (cen' & Ec' & C0' & C1' & C2' & Gc').
  cbn [scale3 d0 d1 d2] in C0', C1', C2', Gc'.
  exists cen, (normalize_patches cen k), (normalize_patches cen' k).
  split; [exact Ec|].
  split; [rewrite preprocess_via_centered, Ec, Hn; reflexivity|].
  split; [rewrite preprocess_via_centered, Ec', Hn; reflexivity|].
  split; [change (d2 cen' = d2 cen); congruence|].
  intros Hge Hge' q Hq. change (q < d2 cen)%nat in Hq.
  assert (Hnn : (n * n <> 0)%nat) by (unfold n; nia).
  assert (Hn0 : (n <> 0)%nat) by (unfold n; lia).
  (* the centered vector is multiplied by a *)
  assert (Hwin : forall ch x y,
            window_value (scale3 a image) n r s ch x y
            = a * window_value image n r s ch x y).
  { intros ch x y. unfold window_value. cbn [scale3 d0 d1 get3].
    destruct (_ && _); ring. }
  assert (Hcen : forall q', (q' < d2 cen)%nat ->
            get3 cen' r s q' = a * get3 cen r s q').
  { intros q' Hq'. rewrite C2 in Hq'.
    rewrite Gc', Gc by assumption.
    rewrite Hwin.
    rewrite (sum_n_ext _ _
               (fun m => a * window_value image n r s (q' / (n * n))
                               (m / n) (m mod n))).
    2:{ intros m _. apply Hwin. }
    rewrite sum_n_scal. field. apply not_0_INR, Hnn. }
  (* hence so is its norm *)
  assert (HN : get3 (norm_axis2 cen') r s O = a * get3 (norm_axis2 cen) r s O).
  { cbn [get3 norm_axis2].
    replace (d2 cen') with (d2 cen) by congruence.
    rewrite (sum_n_ext _ _ (fun q' => Rsqr a * get3 cen r s q' ^ 2)).
    2:{ intros q' Hq'. rewrite Hcen by exact Hq'. unfold Rsqr. ring. }
    rewrite sum_n_scal, sqrt_mult;
      [|apply Rle_0_sqr | apply sum_n_sq_nonneg].
    rewrite sqrt_Rsqr by lra. reflexivity. }
  destruct (normalize_textured cen k r s Hk) as [Ho _];
    [rewrite C0, C1; exact Hin | exact Hge |].
  destruct (normalize_textured cen' k r s Hk) as [Ho' _];
    [rewrite C0', C1'; exact Hin | rewrite HN; exact Hge' |].
  rewrite Ho, Ho', HN, Hcen by exact Hq.
  pose proof eps_pos as He. field. split; lra.
Qed.

Lemma preprocess_gain_invariant_witness :
  0 < 2 /\ (0 < 1)%nat /\ (0 < d2 spot_3x3)%nat /\
  interior (d0 spot_3x3) (d1 spot_3x3) 1 1 1 /\
  exists cen out out',
    centered_patches spot_3x3 (2 * 1 + 1) = Ok cen /\
    preprocess_ncc_impl spot_3x3 (2 * 1 + 1) = Ok out /\
    preprocess_ncc_impl (scale3 2 spot_3x3) (2 * 1 + 1) = Ok out' /\
    d2 out' = d2 out /\
    forall q, (q < d2 out)%nat -> get3 out' 1 1 q = get3 out 1 1 q.
Proof.
  assert (H2 : 0 < 2) by lra.
  assert (H1 : (0 < 1)%nat) by lia.
  assert (Hc : (0 < d2 spot_3x3)%nat) by (cbn; lia).
  split; [exact H2|]. split; [exact H1|]. split; [exact Hc|].
  split; [exact spot_3x3_interior|].
  destruct (preprocess_gain_invariant spot_3x3 2 1 1 1 H2 H1 Hc spot_3x3_interior)
    as (cen & out & out' & Ec & Eo & Eo' & D & H).
  exists cen, out, out'. repeat (split; [assumption|]).
  destruct (spot_3x3_centre cen Ec) as [_ Hge].
  apply H; [exact Hge|]. pose proof eps_pos. lra.
Defined.
